(** * Indexer accounting engine and delegated-stake identity

    A shallow embedding of the class [Indexer] and of the class
    [DelegatedStake] ([src/models/delegatedStake.ts]) of the indexer badges
    subgraph, with the properties of its accounting checked against the
    embedding.

    Conventions of the embedding:
    - a [BigDecimal] is modelled by its value, a rational in canonical form
      ([Qc]), so that [equals] is Leibniz equality; the arithmetic operations
      round their result to 34 significant decimal digits, as the host of the
      subgraph does; [BigInt] values are integers ([Z]).
    - [BigDecimal.div] faults on a zero divisor; a fault is [None].
    - the entity store is a finite map from entity id to entity; an [Indexer]
      object holds its own copy of the entity, written back by [save]. *)

From Stdlib Require Import ZArith QArith Qcanon Qround Qpower.
From stdpp Require Import base numbers option list strings pretty gmap.

Local Open Scope Z_scope.

(** ** Decimal and integer utilities *)

Abbreviation BigInt := Z (only parsing).
Abbreviation BigDecimal := Qc (only parsing).

(** [BigDecimal] of [graph-ts].  [plus], [minus], [times] and [div] are calls
    to the host, which computes the result and normalises it to at most 34
    significant decimal digits, the nearest such decimal to the exact result
    ([round]); comparisons and the change of sign are exact. *)
Module BD.
Definition ofZ (n : Z) : BigDecimal := Q2Qc (inject_Z n).

(** The number of significant digits the host keeps. *)
Definition precision : Z := 34.

Definition pow10 (k : Z) : BigDecimal := Q2Qc (inject_Z 10 ^ k)%Q.

(** [x] written with exponent [e]: the significand [x / 10^e]. *)
Definition scaled (x : BigDecimal) (e : Z) : BigDecimal :=
  (x * pow10 (- e))%Qc.

(** [e] is the exponent of the 34-digit form of [x]: the significand has
    exactly 34 digits before the decimal point. *)
Definition normal (x : BigDecimal) (e : Z) : bool :=
  bool_decide (pow10 (precision - 1) ≤ scaled x e)%Qc
  && bool_decide (scaled x e < pow10 precision)%Qc.

(** Number of decimal digits of a positive integer. *)
Fixpoint digits_go (fuel : nat) (n : Z) : Z :=
  match fuel with
  | O => 1
  | S fuel => if decide (n < 10) then 1 else 1 + digits_go fuel (n / 10)
  end.

Definition digits (n : Z) : Z := digits_go (Z.to_nat (Z.log2 n)) n.

(** The exponent of the 34-digit form of a positive [x], found from the
    digit counts of its numerator and denominator: a fraction of an
    [a]-digit by a [b]-digit integer lies between [10^(a-b-1)] and
    [10^(a-b+1)]. *)
Definition exponent (x : BigDecimal) : option Z :=
  let e := digits (Qnum x) - digits (Zpos (Qden x)) - precision in
  List.find (normal x) [e; e + 1].

(** The integer nearest to [y]; a [y] half-way between two integers goes to
    the larger one.  No property below depends on the direction in which
    such a tie is rounded. *)
Definition nearest (y : BigDecimal) : Z := Qfloor (y + (1 # 2))%Q.

(** A positive [x] rounded to 34 significant digits.  The exponent is always
    found; the second case keeps the function total. *)
Definition roundPos (x : BigDecimal) : BigDecimal :=
  match exponent x with
  | Some e => (ofZ (nearest (scaled x e)) * pow10 e)%Qc
  | None => x
  end.

(** Rounding is symmetric about zero, and zero stays zero. *)
Definition round (q : BigDecimal) : BigDecimal :=
  if decide (q = 0%Qc) then 0%Qc
  else if decide (0 < q)%Qc then roundPos q else (- roundPos (- q))%Qc.

Definition plus (x y : BigDecimal) : BigDecimal := round (x + y)%Qc.
Definition minus (x y : BigDecimal) : BigDecimal := round (x - y)%Qc.
Definition times (x y : BigDecimal) : BigDecimal := round (x * y)%Qc.
Definition neg (x : BigDecimal) : BigDecimal := (- x)%Qc.
Definition equals (x y : BigDecimal) : bool := bool_decide (x = y).
Definition gt (x y : BigDecimal) : bool := bool_decide (y < x)%Qc.
(** Division faults when the divisor is zero. *)
Definition div (x y : BigDecimal) : option BigDecimal :=
  if decide (y = 0%Qc) then None else Some (round (x / y)%Qc).
End BD.

(** [helpers/constants] *)
Definition zeroBD : BigDecimal := BD.ofZ 0.
Definition sixteenBD : BigDecimal := BD.ofZ 16.
Definition oneBI : BigInt := 1.
Definition zeroBI : BigInt := 0.

(** ** Blocks and addresses *)

Record Block := mkBlock {
  number : BigInt;
  timestamp : BigInt;
}.

(** An address is kept in its hexadecimal text form. *)
Definition Address := string.
Definition toHex (a : Address) : string := a.

(** ** The persisted Indexer entity ([generated/schema]) *)

Module IndexerEntity.
(** Fields the [Indexer] constructor initialises are total; the fields it
    leaves unset, or that the code tests against or assigns [null], are
    optional. *)
Record t := mk {
  id : string;
  createdAtTimestamp : BigInt;
  ownStake : BigDecimal;
  delegatedStake : BigDecimal;
  allocatedStake : BigDecimal;
  maximumDelegation : BigDecimal;
  allocationRatio : BigDecimal;
  delegationRatio : BigDecimal;
  isOverDelegated : bool;
  delegationPoolShares : option BigInt;
  monthlyDelegatorRewardRate : BigDecimal;
  lastSnapshot : option string;
  indexingRewardCutRatio : option BigDecimal;
  queryFeeCutRatio : option BigDecimal;
  delegatorParameterCooldownBlock : option BigInt;
}.

Definition set_ownStake (v : BigDecimal) (e : t) : t :=
  mk (id e) (createdAtTimestamp e) v (delegatedStake e) (allocatedStake e)
     (maximumDelegation e) (allocationRatio e) (delegationRatio e)
     (isOverDelegated e) (delegationPoolShares e)
     (monthlyDelegatorRewardRate e) (lastSnapshot e)
     (indexingRewardCutRatio e) (queryFeeCutRatio e)
     (delegatorParameterCooldownBlock e).

Definition set_delegatedStake (v : BigDecimal) (e : t) : t :=
  mk (id e) (createdAtTimestamp e) (ownStake e) v (allocatedStake e)
     (maximumDelegation e) (allocationRatio e) (delegationRatio e)
     (isOverDelegated e) (delegationPoolShares e)
     (monthlyDelegatorRewardRate e) (lastSnapshot e)
     (indexingRewardCutRatio e) (queryFeeCutRatio e)
     (delegatorParameterCooldownBlock e).

Definition set_allocatedStake (v : BigDecimal) (e : t) : t :=
  mk (id e) (createdAtTimestamp e) (ownStake e) (delegatedStake e) v
     (maximumDelegation e) (allocationRatio e) (delegationRatio e)
     (isOverDelegated e) (delegationPoolShares e)
     (monthlyDelegatorRewardRate e) (lastSnapshot e)
     (indexingRewardCutRatio e) (queryFeeCutRatio e)
     (delegatorParameterCooldownBlock e).

Definition set_maximumDelegation (v : BigDecimal) (e : t) : t :=
  mk (id e) (createdAtTimestamp e) (ownStake e) (delegatedStake e)
     (allocatedStake e) v (allocationRatio e) (delegationRatio e)
     (isOverDelegated e) (delegationPoolShares e)
     (monthlyDelegatorRewardRate e) (lastSnapshot e)
     (indexingRewardCutRatio e) (queryFeeCutRatio e)
     (delegatorParameterCooldownBlock e).

Definition set_allocationRatio (v : BigDecimal) (e : t) : t :=
  mk (id e) (createdAtTimestamp e) (ownStake e) (delegatedStake e)
     (allocatedStake e) (maximumDelegation e) v (delegationRatio e)
     (isOverDelegated e) (delegationPoolShares e)
     (monthlyDelegatorRewardRate e) (lastSnapshot e)
     (indexingRewardCutRatio e) (queryFeeCutRatio e)
     (delegatorParameterCooldownBlock e).

Definition set_delegationRatio (v : BigDecimal) (e : t) : t :=
  mk (id e) (createdAtTimestamp e) (ownStake e) (delegatedStake e)
     (allocatedStake e) (maximumDelegation e) (allocationRatio e) v
     (isOverDelegated e) (delegationPoolShares e)
     (monthlyDelegatorRewardRate e) (lastSnapshot e)
     (indexingRewardCutRatio e) (queryFeeCutRatio e)
     (delegatorParameterCooldownBlock e).

Definition set_isOverDelegated (v : bool) (e : t) : t :=
  mk (id e) (createdAtTimestamp e) (ownStake e) (delegatedStake e)
     (allocatedStake e) (maximumDelegation e) (allocationRatio e)
     (delegationRatio e) v (delegationPoolShares e)
     (monthlyDelegatorRewardRate e) (lastSnapshot e)
     (indexingRewardCutRatio e) (queryFeeCutRatio e)
     (delegatorParameterCooldownBlock e).

Definition set_delegationPoolShares (v : option BigInt) (e : t) : t :=
  mk (id e) (createdAtTimestamp e) (ownStake e) (delegatedStake e)
     (allocatedStake e) (maximumDelegation e) (allocationRatio e)
     (delegationRatio e) (isOverDelegated e) v
     (monthlyDelegatorRewardRate e) (lastSnapshot e)
     (indexingRewardCutRatio e) (queryFeeCutRatio e)
     (delegatorParameterCooldownBlock e).

Definition set_monthlyDelegatorRewardRate (v : BigDecimal) (e : t) : t :=
  mk (id e) (createdAtTimestamp e) (ownStake e) (delegatedStake e)
     (allocatedStake e) (maximumDelegation e) (allocationRatio e)
     (delegationRatio e) (isOverDelegated e) (delegationPoolShares e)
     v (lastSnapshot e)
     (indexingRewardCutRatio e) (queryFeeCutRatio e)
     (delegatorParameterCooldownBlock e).

Definition set_lastSnapshot (v : option string) (e : t) : t :=
  mk (id e) (createdAtTimestamp e) (ownStake e) (delegatedStake e)
     (allocatedStake e) (maximumDelegation e) (allocationRatio e)
     (delegationRatio e) (isOverDelegated e) (delegationPoolShares e)
     (monthlyDelegatorRewardRate e) v
     (indexingRewardCutRatio e) (queryFeeCutRatio e)
     (delegatorParameterCooldownBlock e).

Definition set_indexingRewardCutRatio (v : option BigDecimal) (e : t) : t :=
  mk (id e) (createdAtTimestamp e) (ownStake e) (delegatedStake e)
     (allocatedStake e) (maximumDelegation e) (allocationRatio e)
     (delegationRatio e) (isOverDelegated e) (delegationPoolShares e)
     (monthlyDelegatorRewardRate e) (lastSnapshot e)
     v (queryFeeCutRatio e)
     (delegatorParameterCooldownBlock e).

Definition set_queryFeeCutRatio (v : option BigDecimal) (e : t) : t :=
  mk (id e) (createdAtTimestamp e) (ownStake e) (delegatedStake e)
     (allocatedStake e) (maximumDelegation e) (allocationRatio e)
     (delegationRatio e) (isOverDelegated e) (delegationPoolShares e)
     (monthlyDelegatorRewardRate e) (lastSnapshot e)
     (indexingRewardCutRatio e) v
     (delegatorParameterCooldownBlock e).

Definition set_delegatorParameterCooldownBlock (v : option BigInt) (e : t) : t :=
  mk (id e) (createdAtTimestamp e) (ownStake e) (delegatedStake e)
     (allocatedStake e) (maximumDelegation e) (allocationRatio e)
     (delegationRatio e) (isOverDelegated e) (delegationPoolShares e)
     (monthlyDelegatorRewardRate e) (lastSnapshot e)
     (indexingRewardCutRatio e) (queryFeeCutRatio e) v.
End IndexerEntity.

(** ** Collaborators outside the accounting engine *)

(** [helpers/token] and [helpers/feeCut]: conversion of raw base-unit token
    amounts and raw fee-cut encodings to decimals by a fixed divisor.  The
    divisors are not part of the engine: the exact quotients are parameters.
    The decimal a helper returns is the result of a [BigDecimal] operation
    and so is the quotient as the host normalises it. *)
Class Conversions := {
  tokenAmountQuotient : BigInt → Qc;
  feeCutQuotient : BigInt → Qc;
}.

Definition tokenAmountToDecimal `{Conversions} (amount : BigInt) : BigDecimal :=
  BD.round (tokenAmountQuotient amount).

Definition feeCutToDecimalRatio `{Conversions} (feeCut : BigInt) : BigDecimal :=
  BD.round (feeCutQuotient feeCut).

(** [models/indexerSnapshot]: the snapshot ledger, used by the engine only
    through this interface.  A snapshot object is created from the indexer
    entity and the current block, records deltas, and persists itself in its
    own table; none of its operations writes the indexer entity. *)
Class SnapshotLedger := {
  SnapshotTable : Type;
  IndexerSnapshot : Type;
  snapshot_new :
    IndexerEntity.t → Block → SnapshotTable → IndexerSnapshot * SnapshotTable;
  snapshot_id : IndexerSnapshot → string;
  snapshot_updateOwnStake :
    BigDecimal → IndexerSnapshot → SnapshotTable → IndexerSnapshot * SnapshotTable;
  snapshot_updateDelegatedStake :
    BigDecimal → IndexerSnapshot → SnapshotTable → IndexerSnapshot * SnapshotTable;
  snapshot_addDelegationPoolIndexingRewards :
    BigDecimal → IndexerSnapshot → SnapshotTable → IndexerSnapshot * SnapshotTable;
  snapshot_incrementParametersChangesCount :
    IndexerSnapshot → SnapshotTable → IndexerSnapshot * SnapshotTable;
  snapshot_previousMonthRewards :
    IndexerSnapshot → SnapshotTable → BigDecimal;
}.

(** Modelled from the spec: the parameter update log
    ([models/indexerParameterUpdate], absent from the sources): an immutable
    record of (indexer, effective block, indexing reward cut ratio, query fee
    cut ratio), appended on every parameter-change event. *)
Record ParameterUpdate := mkParameterUpdate {
  pu_indexer : string;
  pu_effectiveBlock : BigInt;
  pu_indexingRewardCutRatio : BigDecimal;
  pu_queryFeeCutRatio : BigDecimal;
}.

(** ** Events ([generated/Staking], [generated/RewardsManager]) *)

(** Each event carries the block it was emitted in and its parameters; only
    the parameters the handlers read are kept.  [TokensEvent] stands for the
    events that carry an indexer and a token amount (StakeDeposited,
    StakeLocked, StakeWithdrawn, StakeSlashed, StakeDelegatedWithdrawn,
    AllocationCreated, AllocationCollected, AllocationClosed); [SharesEvent]
    for those that also carry pool shares (StakeDelegated,
    StakeDelegatedLocked). *)
Record TokensEvent := mkTokensEvent {
  te_block : Block;
  te_indexer : Address;
  te_tokens : BigInt;
}.

Record SharesEvent := mkSharesEvent {
  se_block : Block;
  se_indexer : Address;
  se_tokens : BigInt;
  se_shares : BigInt;
}.

Record RewardsAssigned := mkRewardsAssigned {
  ra_block : Block;
  ra_indexer : Address;
  ra_amount : BigInt;
}.

Record RebateClaimed := mkRebateClaimed {
  rc_block : Block;
  rc_indexer : Address;
  rc_delegationFees : BigInt;
}.

Record DelegationParametersUpdated := mkDelegationParametersUpdated {
  dpu_block : Block;
  dpu_indexer : Address;
  dpu_indexingRewardCut : BigInt;
  dpu_queryFeeCut : BigInt;
  dpu_cooldownBlocks : BigInt;
}.

(** ** The class [Indexer] *)

Module Indexer.
Section Engine.
Context `{Conversions} `{SnapshotLedger}.

Record World := mkWorld {
  indexers : gmap string IndexerEntity.t;
  snapshots : SnapshotTable;
  parameterUpdates : list ParameterUpdate;
}.

(** The class [Indexer]: the entity object it works on, the block being
    processed, the lazily created snapshot, and the three stakes read from
    the entity when the object was constructed. *)
Record t := mkIndexer {
  indexerEntity : IndexerEntity.t;
  currentBlock : Block;
  _snapshot : option IndexerSnapshot;
  _delegatedStake : BigDecimal;
  _ownStake : BigDecimal;
  _allocatedStake : BigDecimal;
}.

Definition set_indexerEntity (e : IndexerEntity.t) (ix : t) : t :=
  mkIndexer e (currentBlock ix) (_snapshot ix)
            (_delegatedStake ix) (_ownStake ix) (_allocatedStake ix).

Definition set_snapshot (s : option IndexerSnapshot) (ix : t) : t :=
  mkIndexer (indexerEntity ix) (currentBlock ix) s
            (_delegatedStake ix) (_ownStake ix) (_allocatedStake ix).

Definition set_indexers (m : gmap string IndexerEntity.t) (w : World) : World :=
  mkWorld m (snapshots w) (parameterUpdates w).

Definition set_snapshots (t : SnapshotTable) (w : World) : World :=
  mkWorld (indexers w) t (parameterUpdates w).

Definition set_parameterUpdates (l : list ParameterUpdate) (w : World) : World :=
  mkWorld (indexers w) (snapshots w) l.

(** *** Methods: state ([this] and the world) with faults *)

Definition Method (A : Type) : Type :=
  t * World → option (A * (t * World)).

#[export] Instance Method_ret : MRet Method := λ A a s, Some (a, s).

#[export] Instance Method_bind : MBind Method := λ A B k m s,
  match m s with
  | Some (a, s') => k a s'
  | None => None
  end.

Definition lift {A} (o : option A) : Method A :=
  λ s, match o with Some a => Some (a, s) | None => None end.

(** A primitive step, given by its effect on the state. *)
Definition act {A} (f : t * World → option (A * (t * World)))
  : Method A := f.

(** Read a (pure) getter of [this]. *)
Definition get {A} (g : t → A) : Method A := λ s, Some (g s.1, s).

(** [this.indexerEntity.f = v] *)
Definition assign {A} (setter : A → IndexerEntity.t → IndexerEntity.t) (v : A)
  : Method unit :=
  λ s, Some (tt, (set_indexerEntity (setter v (indexerEntity s.1)) s.1, s.2)).

(** [this.indexerEntity.save()] *)
Definition save : Method unit :=
  λ s, Some (tt, (s.1, set_indexers
                         (<[IndexerEntity.id (indexerEntity s.1) :=
                              indexerEntity s.1]> (indexers s.2)) s.2)).

(** A fallible pure getter of [this]. *)
Definition getM {A} (g : t → option A) : Method A := λ s, lift (g s.1) s.

(** *** Construction *)

(** Initialize an Indexer using its address: load the entity, or start a new
    one (not yet saved). *)
Definition constructor (address : Address) (currentBlock : Block) (w : World)
  : t :=
  let indexerEntity :=
    match indexers w !! toHex address with
    | Some e => e
    | None =>
        {| IndexerEntity.id := toHex address;
           IndexerEntity.createdAtTimestamp := timestamp currentBlock;
           IndexerEntity.ownStake := zeroBD;
           IndexerEntity.delegatedStake := zeroBD;
           IndexerEntity.allocatedStake := zeroBD;
           IndexerEntity.maximumDelegation := zeroBD;
           IndexerEntity.allocationRatio := zeroBD;
           IndexerEntity.delegationRatio := zeroBD;
           IndexerEntity.isOverDelegated := false;
           IndexerEntity.delegationPoolShares := Some oneBI;
           IndexerEntity.monthlyDelegatorRewardRate := zeroBD;
           IndexerEntity.lastSnapshot := None;
           IndexerEntity.indexingRewardCutRatio := None;
           IndexerEntity.queryFeeCutRatio := None;
           IndexerEntity.delegatorParameterCooldownBlock := None |}
    end in
  {| indexerEntity := indexerEntity;
     currentBlock := currentBlock;
     _snapshot := None;
     _delegatedStake := IndexerEntity.delegatedStake indexerEntity;
     _ownStake := IndexerEntity.ownStake indexerEntity;
     _allocatedStake := IndexerEntity.allocatedStake indexerEntity |}.

(** *** Getters *)

Definition id (ix : t) : string := IndexerEntity.id (indexerEntity ix).

Definition ownStake (ix : t) : BigDecimal := _ownStake ix.

Definition delegatedStake (ix : t) : BigDecimal := _delegatedStake ix.

Definition delegationPoolShares (ix : t) : BigInt :=
  match IndexerEntity.delegationPoolShares (indexerEntity ix) with
  | None => zeroBI
  | Some shares => shares
  end.

Definition allocatedStake (ix : t) : BigDecimal := _allocatedStake ix.

Definition maximumDelegation (ix : t) : BigDecimal :=
  BD.times (ownStake ix) sixteenBD.

Definition isOverDelegated (ix : t) : bool :=
  BD.gt (delegatedStake ix) (maximumDelegation ix).

(** The allocation capacity computed at the head of [allocationRatio]. *)
Definition allocationCapacity (ix : t) : BigDecimal :=
  let allocationCapacity := ownStake ix in
  if isOverDelegated ix
  then BD.plus allocationCapacity (maximumDelegation ix)
  else BD.plus allocationCapacity (delegatedStake ix).

Definition allocationRatio (ix : t) : option BigDecimal :=
  let allocationCapacity := allocationCapacity ix in
  if BD.equals allocationCapacity zeroBD
  then Some zeroBD
  else BD.div (allocatedStake ix) allocationCapacity.

Definition delegationRatio (ix : t) : option BigDecimal :=
  if BD.equals (ownStake ix) zeroBD
  then Some zeroBD
  else BD.div (delegatedStake ix) (maximumDelegation ix).

(** The snapshot is created on first use and kept in [_snapshot]. *)
Definition snapshot : Method IndexerSnapshot := λ s,
  match _snapshot s.1 with
  | Some sn => Some (sn, s)
  | None =>
      let r := snapshot_new (indexerEntity s.1) (currentBlock s.1) (snapshots s.2) in
      Some (r.1, (set_snapshot (Some r.1) s.1, set_snapshots r.2 s.2))
  end.

(** [this.snapshot.op(...)]: the operation updates the snapshot object and
    the snapshot table. *)
Definition onSnapshot
    (op : IndexerSnapshot → SnapshotTable → IndexerSnapshot * SnapshotTable)
  : Method unit :=
  sn ← snapshot;
  act (λ s, let r := op sn (snapshots s.2) in
            Some (tt, (set_snapshot (Some r.1) s.1, set_snapshots r.2 s.2))).

Definition monthlyDelegatorRewardRate : Method BigDecimal :=
  d ← get delegatedStake;
  if BD.equals d zeroBD
  then mret zeroBD
  else
    sn ← snapshot;
    act (λ s, lift (BD.div (snapshot_previousMonthRewards sn (snapshots s.2)) d) s).

(** *** Mutators *)

Definition updateOwnStake (ownStakeDelta : BigDecimal) : Method unit :=
  onSnapshot (snapshot_updateOwnStake ownStakeDelta);;
  sn ← snapshot;
  assign IndexerEntity.set_lastSnapshot (Some (snapshot_id sn));;
  v ← get ownStake;
  assign IndexerEntity.set_ownStake (BD.plus v ownStakeDelta);;
  v ← get maximumDelegation;
  assign IndexerEntity.set_maximumDelegation v;;
  v ← get isOverDelegated;
  assign IndexerEntity.set_isOverDelegated v;;
  v ← getM allocationRatio;
  assign IndexerEntity.set_allocationRatio v;;
  v ← getM delegationRatio;
  assign IndexerEntity.set_delegationRatio v;;
  save.

Definition updateDelegatedStake
    (delegatedStakeDelta : BigDecimal) (delegationPoolSharesDelta : BigInt)
  : Method unit :=
  onSnapshot (snapshot_updateDelegatedStake delegatedStakeDelta);;
  sn ← snapshot;
  assign IndexerEntity.set_lastSnapshot (Some (snapshot_id sn));;
  v ← get delegatedStake;
  assign IndexerEntity.set_delegatedStake (BD.plus v delegatedStakeDelta);;
  v ← get delegationPoolShares;
  assign IndexerEntity.set_delegationPoolShares
         (Some (v + delegationPoolSharesDelta));;
  v ← get isOverDelegated;
  assign IndexerEntity.set_isOverDelegated v;;
  v ← getM allocationRatio;
  assign IndexerEntity.set_allocationRatio v;;
  v ← getM delegationRatio;
  assign IndexerEntity.set_delegationRatio v;;
  v ← monthlyDelegatorRewardRate;
  assign IndexerEntity.set_monthlyDelegatorRewardRate v;;
  save.

Definition updateAllocatedStake (newAllocatedStakeDelta : BigDecimal)
  : Method unit :=
  v ← get allocatedStake;
  assign IndexerEntity.set_allocatedStake (BD.plus v newAllocatedStakeDelta);;
  v ← getM allocationRatio;
  assign IndexerEntity.set_allocationRatio v;;
  save.
(** *** Event handlers *)

Definition handleStakeDeposited (event : TokensEvent) : Method unit :=
  let indexerStakeDeposited := tokenAmountToDecimal (te_tokens event) in
  updateOwnStake indexerStakeDeposited.

Definition handleStakeLocked (event : TokensEvent) : Method unit :=
  let indexerStakeLocked := tokenAmountToDecimal (te_tokens event) in
  updateOwnStake (BD.neg indexerStakeLocked).

(** Does nothing since withdrawn balances are not tracked. *)
Definition handleStakeWithdrawn (event : TokensEvent) : Method unit := mret tt.

Definition handleStakeSlashed (event : TokensEvent) : Method unit :=
  let indexerStakeSlashed := tokenAmountToDecimal (te_tokens event) in
  updateOwnStake (BD.neg indexerStakeSlashed).

Definition handleStakeDelegated (event : SharesEvent) : Method unit :=
  let indexerStakeDelegated := tokenAmountToDecimal (se_tokens event) in
  let mintedShares := se_shares event in
  updateDelegatedStake indexerStakeDelegated mintedShares.

Definition handleStakeDelegatedLocked (event : SharesEvent) : Method unit :=
  let burnedShares := se_shares event in
  let indexerStakeDelegatedLocked := tokenAmountToDecimal (se_tokens event) in
  updateDelegatedStake (BD.neg indexerStakeDelegatedLocked) (- burnedShares).

Definition handleStakeDelegatedWithdrawn (event : TokensEvent) : Method unit :=
  mret tt.

Definition handleAllocationCreated (event : TokensEvent) : Method unit :=
  let indexerAllocatedTokens := tokenAmountToDecimal (te_tokens event) in
  updateAllocatedStake indexerAllocatedTokens.

Definition handleAllocationCollected (event : TokensEvent) : Method unit :=
  mret tt.

Definition handleAllocationClosed (event : TokensEvent) : Method unit :=
  let indexerAllocationTokens := tokenAmountToDecimal (te_tokens event) in
  updateAllocatedStake (BD.neg indexerAllocationTokens).

(** The first half of [handleRewardsAssigned]: the two local variables
    [(indexerIndexingRewards, delegatorIndexingRewards)].  Reading an unset
    [indexingRewardCutRatio] in the split branch is a fault. *)
Definition rewardsSplit (event : RewardsAssigned)
  : Method (BigDecimal * BigDecimal) :=
  let rewardedIndexingTokens := tokenAmountToDecimal (ra_amount event) in
  d ← get delegatedStake;
  if BD.equals d zeroBD
  then mret (rewardedIndexingTokens, zeroBD)
  else
    cut ← getM (λ ix, IndexerEntity.indexingRewardCutRatio (indexerEntity ix));
    let indexerIndexingRewards := BD.times rewardedIndexingTokens cut in
    mret (indexerIndexingRewards,
          BD.minus rewardedIndexingTokens indexerIndexingRewards).

Definition handleRewardsAssigned (event : RewardsAssigned) : Method unit :=
  rewards ← rewardsSplit event;
  let delegatorIndexingRewards := rewards.2 in
  onSnapshot (snapshot_addDelegationPoolIndexingRewards delegatorIndexingRewards);;
  updateDelegatedStake delegatorIndexingRewards zeroBI.

Definition handleRebateClaimed (event : RebateClaimed) : Method unit :=
  let delegationFees := tokenAmountToDecimal (rc_delegationFees event) in
  updateDelegatedStake delegationFees zeroBI;;
  onSnapshot (snapshot_addDelegationPoolIndexingRewards delegationFees).

(** [new IndexerParameterUpdate(entity, block).registerUpdate(r1, r2)]
    appends one record to the parameter update log. *)
Definition registerUpdate (indexerId : string) (block : Block)
    (newIndexingRewardCutRatio newQueryFeeCutRatio : BigDecimal)
  : Method unit :=
  act (λ s, Some (tt, (s.1, set_parameterUpdates
         (parameterUpdates s.2 ++
            [mkParameterUpdate indexerId (number block)
               newIndexingRewardCutRatio newQueryFeeCutRatio]) s.2))).

Definition handleDelegationParametersUpdated
    (event : DelegationParametersUpdated) : Method unit :=
  let newIndexingRewardCutRatio :=
    feeCutToDecimalRatio (dpu_indexingRewardCut event) in
  let newQueryFeeCutRatio := feeCutToDecimalRatio (dpu_queryFeeCut event) in
  indexerId ← get id;
  block ← get currentBlock;
  assign IndexerEntity.set_indexingRewardCutRatio (Some newIndexingRewardCutRatio);;
  assign IndexerEntity.set_queryFeeCutRatio (Some newQueryFeeCutRatio);;
  registerUpdate indexerId block newIndexingRewardCutRatio newQueryFeeCutRatio;;
  onSnapshot snapshot_incrementParametersChangesCount;;
  (if bool_decide (dpu_cooldownBlocks event = 0)
   then assign IndexerEntity.set_delegatorParameterCooldownBlock None
   else assign IndexerEntity.set_delegatorParameterCooldownBlock
               (Some (number (dpu_block event) + dpu_cooldownBlocks event)));;
  save.

(** *** Event delivery *)

(** Modelled from the spec: the event mappings (absent from the sources).
    Each decoded event is processed on its own: an [Indexer] is constructed
    for the event's indexer address and block from the store, one handler is
    called on it, and the handler persists the entity ("load existing state
    by address or initialize", then "a synchronous, in-memory
    read-modify-write followed by a persist"). *)
Definition deliver (address : Address) (block : Block) (h : Method unit)
    (w : World) : option World :=
  match h (constructor address block w, w) with
  | Some (_, (_, w')) => Some w'
  | None => None
  end.

Inductive OwnStakeEvent :=
| Deposited (event : TokensEvent)
| Locked (event : TokensEvent).


Definition applyOwnStakeEvent (ev : OwnStakeEvent) (w : World) : option World :=
  match ev with
  | Deposited e => deliver (te_indexer e) (te_block e) (handleStakeDeposited e) w
  | Locked e => deliver (te_indexer e) (te_block e) (handleStakeLocked e) w
  end.

Fixpoint applyOwnStakeEvents (evs : list OwnStakeEvent) (w : World)
  : option World :=
  match evs with
  | [] => Some w
  | ev :: evs' =>
      match applyOwnStakeEvent ev w with
      | Some w' => applyOwnStakeEvents evs' w'
      | None => None
      end
  end.




(** The persisted own stake of an indexer; zero when it has no entity yet
    (the value a fresh indexer starts from). *)
Definition persistedOwnStake (a : Address) (w : World) : BigDecimal :=
  match indexers w !! toHex a with
  | Some e => IndexerEntity.ownStake e
  | None => zeroBD
  end.

(** *** Observing the persisted entity *)

(** [persists m ix w P]: the method [m], run on the object [ix] in the world
    [w], returns; the entity of the resulting object [ix'] is the one stored
    under the indexer's id; and [P ix' e'] holds of the resulting object and
    that persisted entity [e']. *)
Definition persists (m : Method unit) (ix : t) (w : World)
    (P : t → IndexerEntity.t → Prop) : Prop :=
  ∃ ix' w',
    m (ix, w) = Some (tt, (ix', w')) ∧
    indexers w' !! id ix = Some (indexerEntity ix') ∧
    P ix' (indexerEntity ix').


(** The entity store keys every entity by its own id. *)
Definition store_wf (w : World) : Prop :=
  ∀ k e, indexers w !! k = Some e → IndexerEntity.id e = k.

End Engine.
End Indexer.

(** ** The class [DelegatedStake] *)

Module DelegatedStake.

(** Of the delegator entity only the id is read. *)
Record DelegatorEntity := mkDelegatorEntity {
  delegator_id : string;
}.

Record DelegatedStakeEntity := mkDelegatedStakeEntity {
  entity_id : string;
  indexer : string;
  delegator : string;
  createdAtTimestamp : BigInt;
}.

Record t := mk {
  delegatedStakeEntity : DelegatedStakeEntity;
  delegatorEntity : DelegatorEntity;
  indexerEntity : IndexerEntity.t;
  currentBlock : Block;
}.

(** The getter [id] reads the two entities only; it is used before
    [delegatedStakeEntity] is set.  Its logging calls have no effect on the
    state. *)
Definition id_of (indexerEntity : IndexerEntity.t)
    (delegatorEntity : DelegatorEntity) : string :=
  IndexerEntity.id indexerEntity +:+ "-" +:+ delegator_id delegatorEntity.

Definition id (ds : t) : string :=
  id_of (indexerEntity ds) (delegatorEntity ds).

Definition _initializeDelegatedStakeEntity
    (indexerEntity : IndexerEntity.t) (delegatorEntity : DelegatorEntity)
    (currentBlock : Block) (store : gmap string DelegatedStakeEntity)
  : DelegatedStakeEntity * gmap string DelegatedStakeEntity :=
  match store !! id_of indexerEntity delegatorEntity with
  | None =>
      let delegatedStakeEntity :=
        {| entity_id := id_of indexerEntity delegatorEntity;
           indexer := IndexerEntity.id indexerEntity;
           delegator := delegator_id delegatorEntity;
           createdAtTimestamp := timestamp currentBlock |} in
      (delegatedStakeEntity,
       <[entity_id delegatedStakeEntity := delegatedStakeEntity]> store)
  | Some delegatedStakeEntity => (delegatedStakeEntity, store)
  end.

Definition constructor (indexerEntity : IndexerEntity.t)
    (delegatorEntity : DelegatorEntity) (currentBlock : Block)
    (store : gmap string DelegatedStakeEntity)
  : t * gmap string DelegatedStakeEntity :=
  let r := _initializeDelegatedStakeEntity
             indexerEntity delegatorEntity currentBlock store in
  ({| delegatedStakeEntity := r.1;
      delegatorEntity := delegatorEntity;
      indexerEntity := indexerEntity;
      currentBlock := currentBlock |}, r.2).

Definition isCreatedThisBlock (ds : t) : bool :=
  bool_decide (createdAtTimestamp (delegatedStakeEntity ds)
               = timestamp (currentBlock ds)).

End DelegatedStake.

(** ** A concrete ledger, for running the engine on examples *)

Module Example.

(** Token amounts in base units of 10^18, fee cuts in parts per million. *)
#[export] Instance conversions : Conversions := {|
  tokenAmountQuotient n := (BD.ofZ n / BD.ofZ (10 ^ 18))%Qc;
  feeCutQuotient n := (BD.ofZ n / BD.ofZ 1000000)%Qc;
|}.

(** One snapshot per indexer and period of 30 days; it accumulates the
    deltas of its period. *)
Record Snapshot := mkSnapshot {
  snap_indexer : string;
  snap_period : Z;
  snap_ownStakeDelta : BigDecimal;
  snap_delegatedStakeDelta : BigDecimal;
  snap_delegationPoolIndexingRewards : BigDecimal;
  snap_parametersChangesCount : Z;
}.

Definition snap_key (s : Snapshot) : string * Z :=
  (snap_indexer s, snap_period s).

Definition snap_save (s : Snapshot) (t : gmap (string * Z) Snapshot)
  : Snapshot * gmap (string * Z) Snapshot :=
  (s, <[snap_key s := s]> t).

Definition snap_new (e : IndexerEntity.t) (b : Block)
    (t : gmap (string * Z) Snapshot)
  : Snapshot * gmap (string * Z) Snapshot :=
  let period := timestamp b / 2592000 in
  match t !! (IndexerEntity.id e, period) with
  | Some s => (s, t)
  | None =>
      snap_save (mkSnapshot (IndexerEntity.id e) period zeroBD zeroBD zeroBD 0) t
  end.

#[export] Instance ledger : SnapshotLedger := {|
  SnapshotTable := gmap (string * Z) Snapshot;
  IndexerSnapshot := Snapshot;
  snapshot_new := snap_new;
  snapshot_id s := snap_indexer s +:+ "-" +:+ pretty (snap_period s);
  snapshot_updateOwnStake d s :=
    snap_save (mkSnapshot (snap_indexer s) (snap_period s)
                 (BD.plus (snap_ownStakeDelta s) d)
                 (snap_delegatedStakeDelta s)
                 (snap_delegationPoolIndexingRewards s)
                 (snap_parametersChangesCount s));
  snapshot_updateDelegatedStake d s :=
    snap_save (mkSnapshot (snap_indexer s) (snap_period s)
                 (snap_ownStakeDelta s)
                 (BD.plus (snap_delegatedStakeDelta s) d)
                 (snap_delegationPoolIndexingRewards s)
                 (snap_parametersChangesCount s));
  snapshot_addDelegationPoolIndexingRewards d s :=
    snap_save (mkSnapshot (snap_indexer s) (snap_period s)
                 (snap_ownStakeDelta s)
                 (snap_delegatedStakeDelta s)
                 (BD.plus (snap_delegationPoolIndexingRewards s) d)
                 (snap_parametersChangesCount s));
  snapshot_incrementParametersChangesCount s :=
    snap_save (mkSnapshot (snap_indexer s) (snap_period s)
                 (snap_ownStakeDelta s)
                 (snap_delegatedStakeDelta s)
                 (snap_delegationPoolIndexingRewards s)
                 (snap_parametersChangesCount s + 1));
  snapshot_previousMonthRewards s t :=
    match t !! (snap_indexer s, snap_period s - 1) with
    | Some p => snap_delegationPoolIndexingRewards p
    | None => zeroBD
    end;
|}.

Definition block1 : Block := mkBlock 100 1700000000.

Definition emptyWorld : Indexer.World := Indexer.mkWorld ∅ ∅ [].

(** An indexer with own stake 100, delegated stake 400, 400 pool shares and
    an indexing reward cut of 0.2. *)
Definition indexer400 : IndexerEntity.t := {|
  IndexerEntity.id := "0xaa";
  IndexerEntity.createdAtTimestamp := 1690000000;
  IndexerEntity.ownStake := BD.ofZ 100;
  IndexerEntity.delegatedStake := BD.ofZ 400;
  IndexerEntity.allocatedStake := zeroBD;
  IndexerEntity.maximumDelegation := BD.ofZ 1600;
  IndexerEntity.allocationRatio := zeroBD;
  IndexerEntity.delegationRatio := (BD.ofZ 1 / BD.ofZ 4)%Qc;
  IndexerEntity.isOverDelegated := false;
  IndexerEntity.delegationPoolShares := Some 400;
  IndexerEntity.monthlyDelegatorRewardRate := zeroBD;
  IndexerEntity.lastSnapshot := None;
  IndexerEntity.indexingRewardCutRatio := Some (BD.ofZ 1 / BD.ofZ 5)%Qc;
  IndexerEntity.queryFeeCutRatio := Some (BD.ofZ 1 / BD.ofZ 5)%Qc;
  IndexerEntity.delegatorParameterCooldownBlock := None;
|}.

Definition world400 : Indexer.World :=
  Indexer.mkWorld {["0xaa" := indexer400]} ∅ [].

Definition rewards (n : Z) : RewardsAssigned :=
  mkRewardsAssigned block1 "0xaa" (n * 10 ^ 18).

Definition deposit (n : Z) : Indexer.OwnStakeEvent :=
  Indexer.Deposited (mkTokensEvent block1 "0xaa" (n * 10 ^ 18)).

Definition lock (n : Z) : Indexer.OwnStakeEvent :=
  Indexer.Locked (mkTokensEvent block1 "0xaa" (n * 10 ^ 18)).

Definition parameters (cooldownBlocks : Z) : DelegationParametersUpdated :=
  mkDelegationParametersUpdated block1 "0xaa" 200000 200000 cooldownBlocks.

(** The persisted own stake, delegated stake, maximum delegation,
    over-delegation flag and pool shares of indexer ["0xaa"]; decimals as
    their canonical fractions. *)
Definition observe (w : option Indexer.World)
  : option (Q * Q * Q * bool * option BigInt) :=
  w' ← w;
  e ← Indexer.indexers w' !! "0xaa";
  Some (this (IndexerEntity.ownStake e),
        this (IndexerEntity.delegatedStake e),
        this (IndexerEntity.maximumDelegation e),
        IndexerEntity.isOverDelegated e,
        IndexerEntity.delegationPoolShares e).

End Example.

(** ** The event handlers of the class as one table *)

Module Events.
Import Indexer.

(** One constructor per handler of the class, carrying the handler's
    event. *)
Inductive Event :=
| StakeDeposited (event : TokensEvent)
| StakeLocked (event : TokensEvent)
| StakeWithdrawn (event : TokensEvent)
| StakeSlashed (event : TokensEvent)
| StakeDelegated (event : SharesEvent)
| StakeDelegatedLocked (event : SharesEvent)
| StakeDelegatedWithdrawn (event : TokensEvent)
| AllocationCreated (event : TokensEvent)
| AllocationCollected (event : TokensEvent)
| AllocationClosed (event : TokensEvent)
| RewardsWereAssigned (event : RewardsAssigned)
| RebateWasClaimed (event : RebateClaimed)
| ParametersWereUpdated (event : DelegationParametersUpdated).

Definition event_indexer (ev : Event) : Address :=
  match ev with
  | StakeDeposited e | StakeLocked e | StakeWithdrawn e | StakeSlashed e
  | StakeDelegatedWithdrawn e | AllocationCreated e | AllocationCollected e
  | AllocationClosed e => te_indexer e
  | StakeDelegated e | StakeDelegatedLocked e => se_indexer e
  | RewardsWereAssigned e => ra_indexer e
  | RebateWasClaimed e => rc_indexer e
  | ParametersWereUpdated e => dpu_indexer e
  end.

Definition event_block (ev : Event) : Block :=
  match ev with
  | StakeDeposited e | StakeLocked e | StakeWithdrawn e | StakeSlashed e
  | StakeDelegatedWithdrawn e | AllocationCreated e | AllocationCollected e
  | AllocationClosed e => te_block e
  | StakeDelegated e | StakeDelegatedLocked e => se_block e
  | RewardsWereAssigned e => ra_block e
  | RebateWasClaimed e => rc_block e
  | ParametersWereUpdated e => dpu_block e
  end.

(** The handlers that have an empty body. *)
Definition isUntracked (ev : Event) : bool :=
  match ev with
  | StakeWithdrawn _ | StakeDelegatedWithdrawn _ | AllocationCollected _ => true
  | _ => false
  end.

Definition isRewards (ev : Event) : bool :=
  match ev with RewardsWereAssigned _ => true | _ => false end.

Definition isParameters (ev : Event) : bool :=
  match ev with ParametersWereUpdated _ => true | _ => false end.

(** The events whose handler calls [updateOwnStake], [updateDelegatedStake]
    (a rewards event apart) and [updateAllocatedStake]. *)
Definition updatesOwnStake (ev : Event) : bool :=
  match ev with
  | StakeDeposited _ | StakeLocked _ | StakeSlashed _ => true
  | _ => false
  end.

Definition updatesDelegatedStake (ev : Event) : bool :=
  match ev with
  | StakeDelegated _ | StakeDelegatedLocked _ | RebateWasClaimed _ => true
  | _ => false
  end.

Definition updatesAllocatedStake (ev : Event) : bool :=
  match ev with
  | AllocationCreated _ | AllocationClosed _ => true
  | _ => false
  end.

Section Table.
Context `{Conversions} `{SnapshotLedger}.

(** The method of the class called for an event. *)
Definition handle (ev : Event) : Method unit :=
  match ev with
  | StakeDeposited e => handleStakeDeposited e
  | StakeLocked e => handleStakeLocked e
  | StakeWithdrawn e => handleStakeWithdrawn e
  | StakeSlashed e => handleStakeSlashed e
  | StakeDelegated e => handleStakeDelegated e
  | StakeDelegatedLocked e => handleStakeDelegatedLocked e
  | StakeDelegatedWithdrawn e => handleStakeDelegatedWithdrawn e
  | AllocationCreated e => handleAllocationCreated e
  | AllocationCollected e => handleAllocationCollected e
  | AllocationClosed e => handleAllocationClosed e
  | RewardsWereAssigned e => handleRewardsAssigned e
  | RebateWasClaimed e => handleRebateClaimed e
  | ParametersWereUpdated e => handleDelegationParametersUpdated e
  end.

(** Events delivered one by one, each to an object constructed for it
    (see [deliver]). *)
Definition applyEvent (ev : Event) (w : World) : option World :=
  deliver (event_indexer ev) (event_block ev) (handle ev) w.

Fixpoint applyEvents (evs : list Event) (w : World) : option World :=
  match evs with
  | [] => Some w
  | ev :: evs' =>
      match applyEvent ev w with
      | Some w' => applyEvents evs' w'
      | None => None
      end
  end.

(** The amounts the handlers pass to the three mutators.  A rewards event
    passes an amount that depends on the state and is left out here. *)
Definition ownStakeDelta (ev : Event) : BigDecimal :=
  match ev with
  | StakeDeposited e => tokenAmountToDecimal (te_tokens e)
  | StakeLocked e | StakeSlashed e => BD.neg (tokenAmountToDecimal (te_tokens e))
  | _ => zeroBD
  end.

Definition delegatedStakeDelta (ev : Event) : BigDecimal :=
  match ev with
  | StakeDelegated e => tokenAmountToDecimal (se_tokens e)
  | StakeDelegatedLocked e => BD.neg (tokenAmountToDecimal (se_tokens e))
  | RebateWasClaimed e => tokenAmountToDecimal (rc_delegationFees e)
  | _ => zeroBD
  end.

Definition allocatedStakeDelta (ev : Event) : BigDecimal :=
  match ev with
  | AllocationCreated e => tokenAmountToDecimal (te_tokens e)
  | AllocationClosed e => BD.neg (tokenAmountToDecimal (te_tokens e))
  | _ => zeroBD
  end.

Definition poolSharesDelta (ev : Event) : BigInt :=
  match ev with
  | StakeDelegated e => se_shares e
  | StakeDelegatedLocked e => - se_shares e
  | _ => zeroBI
  end.

(** A stake [v] after an event: the handler of an event that updates the
    stake adds the event's amount by [BigDecimal.plus]; any other handler
    leaves the stake alone. *)
Definition stepOf (updates : Event → bool) (f : Event → BigDecimal)
    (ev : Event) (v : BigDecimal) : BigDecimal :=
  if updates ev then BD.plus v (f ev) else v.

(** A stake [v] of indexer [a] after its events among [evs], in the order of
    the events. *)
Fixpoint foldOf (updates : Event → bool) (f : Event → BigDecimal)
    (a : Address) (evs : list Event) (v : BigDecimal) : BigDecimal :=
  match evs with
  | [] => v
  | ev :: evs' =>
      foldOf updates f a evs'
        (if decide (event_indexer ev = a) then stepOf updates f ev v else v)
  end.

(** Sum of an integer amount over the events of one indexer. *)
Fixpoint sumOfZ (f : Event → BigInt) (a : Address) (evs : list Event)
  : BigInt :=
  match evs with
  | [] => zeroBI
  | ev :: evs' =>
      if decide (event_indexer ev = a)
      then f ev + sumOfZ f a evs'
      else sumOfZ f a evs'
  end.

(** The persisted stakes and pool shares of an indexer; an indexer without
    entity counts with the values a new entity starts from. *)
Definition persistedDelegatedStake (a : Address) (w : World) : BigDecimal :=
  match indexers w !! toHex a with
  | Some e => IndexerEntity.delegatedStake e
  | None => zeroBD
  end.

Definition persistedAllocatedStake (a : Address) (w : World) : BigDecimal :=
  match indexers w !! toHex a with
  | Some e => IndexerEntity.allocatedStake e
  | None => zeroBD
  end.

Definition persistedPoolShares (a : Address) (w : World) : BigInt :=
  match indexers w !! toHex a with
  | Some e => default zeroBI (IndexerEntity.delegationPoolShares e)
  | None => oneBI
  end.

(** The cached stakes, the block and the identity of the entity: what no
    method of the class changes on an object. *)
Definition sameObject (ix ix' : t) : Prop :=
  _ownStake ix' = _ownStake ix ∧
  _delegatedStake ix' = _delegatedStake ix ∧
  _allocatedStake ix' = _allocatedStake ix ∧
  currentBlock ix' = currentBlock ix ∧
  IndexerEntity.id (indexerEntity ix') = IndexerEntity.id (indexerEntity ix) ∧
  IndexerEntity.createdAtTimestamp (indexerEntity ix')
    = IndexerEntity.createdAtTimestamp (indexerEntity ix).

(** The snapshot object a ledger operation of the object works on, with the
    ledger's table: the cached snapshot, or else a new one. *)
Definition currentSnapshot (ix : t) (w : World)
  : IndexerSnapshot * SnapshotTable :=
  match _snapshot ix with
  | Some sn => (sn, snapshots w)
  | None => snapshot_new (indexerEntity ix) (currentBlock ix) (snapshots w)
  end.

(** The delegation parameters of two entities agree. *)
Definition sameParameters (e e' : IndexerEntity.t) : Prop :=
  IndexerEntity.indexingRewardCutRatio e'
    = IndexerEntity.indexingRewardCutRatio e ∧
  IndexerEntity.queryFeeCutRatio e' = IndexerEntity.queryFeeCutRatio e ∧
  IndexerEntity.delegatorParameterCooldownBlock e'
    = IndexerEntity.delegatorParameterCooldownBlock e.

(** An object is in step with its entity when its cached stakes are the
    entity's, as after construction. *)
Definition inStep (ix : t) : Prop :=
  _ownStake ix = IndexerEntity.ownStake (indexerEntity ix) ∧
  _delegatedStake ix = IndexerEntity.delegatedStake (indexerEntity ix) ∧
  _allocatedStake ix = IndexerEntity.allocatedStake (indexerEntity ix).

(** The only fault of a handler: a rewards event that has to be split while
    no indexing reward cut ratio is set. *)
Definition faults (ev : Event) (ix : t) : Prop :=
  isRewards ev = true ∧
  delegatedStake ix ≠ zeroBD ∧
  IndexerEntity.indexingRewardCutRatio (indexerEntity ix) = None.

(** [returns m ix w P]: the method returns, in a state of which [P] holds. *)
Definition returns (m : Method unit) (ix : t) (w : World)
    (P : t → World → Prop) : Prop :=
  ∃ ix' w', m (ix, w) = Some (tt, (ix', w')) ∧ P ix' w'.

End Table.
End Events.

(** ** Keys of delegated-stake records *)

Module DelegatedStakeKeys.
Import Stdlib.Strings.Ascii.

(** The text has no ["-"] in it (as the hexadecimal form of an address). *)
Fixpoint dashFree (s : string) : bool :=
  match s with
  | EmptyString => true
  | String c s' => if decide (c = "-"%char) then false else dashFree s'
  end.

(** Every record is stored under its own id. *)
Definition store_wf (store : gmap string DelegatedStake.DelegatedStakeEntity)
  : Prop :=
  ∀ k e, store !! k = Some e → DelegatedStake.entity_id e = k.

End DelegatedStakeKeys.

(** ** Further concrete inputs *)

Module MoreExamples.
Import Indexer Events Example.

(** A new indexer entity of the given id: the values the constructor of
    [Indexer] starts from. *)
Definition indexerNamed (name : string) : IndexerEntity.t := {|
  IndexerEntity.id := name;
  IndexerEntity.createdAtTimestamp := 1690000000;
  IndexerEntity.ownStake := zeroBD;
  IndexerEntity.delegatedStake := zeroBD;
  IndexerEntity.allocatedStake := zeroBD;
  IndexerEntity.maximumDelegation := zeroBD;
  IndexerEntity.allocationRatio := zeroBD;
  IndexerEntity.delegationRatio := zeroBD;
  IndexerEntity.isOverDelegated := false;
  IndexerEntity.delegationPoolShares := Some oneBI;
  IndexerEntity.monthlyDelegatorRewardRate := zeroBD;
  IndexerEntity.lastSnapshot := None;
  IndexerEntity.indexingRewardCutRatio := None;
  IndexerEntity.queryFeeCutRatio := None;
  IndexerEntity.delegatorParameterCooldownBlock := None;
|}.

(** An over-delegated indexer: own stake 10, delegated stake 200, allocated
    stake 85. *)
Definition indexerOver : IndexerEntity.t :=
  IndexerEntity.set_allocatedStake (BD.ofZ 85)
    (IndexerEntity.set_delegatedStake (BD.ofZ 200)
       (IndexerEntity.set_ownStake (BD.ofZ 10) (indexerNamed "0xbb"))).

Definition worldOver : World := mkWorld {["0xbb" := indexerOver]} ∅ [].

Definition tokens (n : Z) : TokensEvent :=
  mkTokensEvent block1 "0xaa" (n * 10 ^ 18).

Definition delegation (n shares : Z) : SharesEvent :=
  mkSharesEvent block1 "0xaa" (n * 10 ^ 18) shares.

(** Deposit 100, delegate 120 for 100 shares, allocate 50, slash 10, a
    rebate with 5 of delegation fees, unlock 20 of delegation for 15 shares,
    close 30 of allocation, new parameters, and two untracked events. *)
Definition history : list Event :=
  [ StakeDeposited (tokens 100);
    StakeDelegated (delegation 120 100);
    AllocationCreated (tokens 50);
    StakeSlashed (tokens 10);
    RebateWasClaimed (mkRebateClaimed block1 "0xaa" (5 * 10 ^ 18));
    StakeDelegatedLocked (delegation 20 15);
    AllocationClosed (tokens 30);
    ParametersWereUpdated (parameters 25);
    StakeWithdrawn (tokens 10);
    AllocationCollected (tokens 1) ].

(** The same history followed by a reward of 100. *)
Definition historyWithRewards : list Event :=
  history ++ [RewardsWereAssigned (rewards 100)].

Definition afterHistoryWithRewards : World :=
  default emptyWorld (applyEvents historyWithRewards world400).

Definition delegatorNamed (name : string) : DelegatedStake.DelegatorEntity :=
  DelegatedStake.mkDelegatorEntity name.



(** An indexer one step over its maximum delegation: own stake 6, so that
    the maximum delegation is 96, and delegated stake [96 + 10^-32]. *)
Definition indexerBrink : IndexerEntity.t :=
  IndexerEntity.set_delegatedStake (BD.ofZ 96 + BD.pow10 (-32))%Qc
    (IndexerEntity.set_ownStake (BD.ofZ 6) (indexerNamed "0xcc")).

Definition worldBrink : World := mkWorld {["0xcc" := indexerBrink]} ∅ [].

(** An indexer whose locks exceed its deposits: own stake -1, delegated
    stake 5. *)
Definition indexerOverdrawn : IndexerEntity.t :=
  IndexerEntity.set_delegatedStake (BD.ofZ 5)
    (IndexerEntity.set_ownStake (BD.ofZ (-1)) (indexerNamed "0xdd")).

Definition worldOverdrawn : World :=
  mkWorld {["0xdd" := indexerOverdrawn]} ∅ [].


End MoreExamples.

(** ** Rounding to 34 significant digits *)

Module BDFacts.
Import BD.
Local Open Scope Qc_scope.

Lemma ofZ_Z2Qc (n : Z) : ofZ n = Qc_of_Z n.
Proof. apply Qc_is_canon. simpl. by rewrite Qred_correct. Qed.

Lemma pow10_add (a b : Z) : pow10 (a + b) = pow10 a * pow10 b.
Proof.
  apply Qc_is_canon. unfold pow10. simpl. rewrite !Qred_correct.
  apply Qpower_plus. discriminate.
Qed.

Lemma pow10_0 : pow10 0 = 1.
Proof. by apply Qc_is_canon. Qed.

Lemma pow10_nonneg (k : Z) : (0 ≤ k)%Z → pow10 k = ofZ (10 ^ k).
Proof.
  intros Hk. apply Qc_is_canon. unfold pow10, ofZ. simpl.
  rewrite !Qred_correct. symmetry. by apply Zpower_Qpower.
Qed.

Lemma pow10_pos (k : Z) : 0 < pow10 k.
Proof.
  unfold Qclt, pow10.
  change (0 < Qred (inject_Z 10 ^ k))%Q. rewrite Qred_correct.
  by apply Qpower_0_lt.
Qed.

Lemma pow10_cancel (a : Z) : pow10 (- a) * pow10 a = 1.
Proof. rewrite <-pow10_add, <-pow10_0. f_equal. lia. Qed.

Lemma ofZ_le (n m : Z) : (n ≤ m)%Z ↔ ofZ n ≤ ofZ m.
Proof. rewrite !ofZ_Z2Qc. apply Z2Qc_inj_le. Qed.

Lemma ofZ_lt (n m : Z) : (n < m)%Z ↔ ofZ n < ofZ m.
Proof. rewrite !ofZ_Z2Qc. apply Z2Qc_inj_lt. Qed.

Lemma ofZ_mul (n m : Z) : ofZ (n * m) = ofZ n * ofZ m.
Proof. rewrite !ofZ_Z2Qc. apply Z2Qc_inj_mul. Qed.

Lemma ofZ_0 : ofZ 0 = 0.
Proof. by apply Qc_is_canon. Qed.

Lemma nearest_ofZ (m : Z) : nearest (ofZ m) = m.
Proof.
  unfold nearest.
  pose proof (Qfloor_le (ofZ m + (1 # 2))%Q) as Hle.
  pose proof (Qlt_floor (ofZ m + (1 # 2))%Q) as Hlt.
  set (f := Qfloor _) in *.
  assert (Heq : (this (ofZ m) == inject_Z m)%Q) by (simpl; apply Qred_correct).
  rewrite Heq in Hle, Hlt.
  assert (inject_Z f < inject_Z (m + 1))%Q as H1.
  { eapply Qle_lt_trans; [exact Hle|]. rewrite inject_Z_plus.
    apply Qplus_lt_r. reflexivity. }
  assert (inject_Z m < inject_Z (f + 1))%Q as H2.
  { eapply Qle_lt_trans; [|exact Hlt].
    rewrite <-(Qplus_0_r (inject_Z m)) at 1. apply Qplus_le_r. discriminate. }
  rewrite <-Zlt_Qlt in H1, H2. lia.
Qed.

Lemma nearest_lower (m : Z) (y : Qc) : ofZ m ≤ y → (m ≤ nearest y)%Z.
Proof.
  intros Hy. rewrite <-(nearest_ofZ m). unfold nearest.
  apply Qfloor_resp_le. apply Qplus_le_l. exact Hy.
Qed.

Lemma nearest_upper (m : Z) (y : Qc) : y ≤ ofZ m → (nearest y ≤ m)%Z.
Proof.
  intros Hy. unfold nearest.
  pose proof (Qfloor_le (y + (1 # 2))%Q) as Hle.
  set (f := Qfloor _) in *.
  assert (Heq : (this (ofZ m) == inject_Z m)%Q) by (simpl; apply Qred_correct).
  assert (inject_Z f < inject_Z (m + 1))%Q as H1.
  { eapply Qle_lt_trans; [exact Hle|]. rewrite inject_Z_plus, <-Heq.
    rewrite (Qplus_comm y), (Qplus_comm (ofZ m)).
    apply Qplus_lt_le_compat; [reflexivity|exact Hy]. }
  rewrite <-Zlt_Qlt in H1. lia.
Qed.

Lemma exponent_normal (x : Qc) (e : Z) : exponent x = Some e → normal x e = true.
Proof. unfold exponent. intros Hf. by apply find_some in Hf as [_ ?]. Qed.

Lemma normal_bounds (x : Qc) (e : Z) :
  normal x e = true →
  (10 ^ 33 ≤ nearest (scaled x e) ≤ 10 ^ 34)%Z.
Proof.
  unfold normal. rewrite andb_true_iff, !bool_decide_eq_true.
  intros [Hlo Hhi].
  rewrite pow10_nonneg in Hlo by (unfold precision; lia).
  rewrite pow10_nonneg in Hhi by (unfold precision; lia).
  split; [by apply nearest_lower|by apply nearest_upper, Qclt_le_weak].
Qed.

Lemma roundPos_pos (x : Qc) : 0 < x → 0 < roundPos x.
Proof.
  intros Hx. unfold roundPos. destruct (exponent x) as [e|] eqn:He; [|done].
  apply exponent_normal, normal_bounds in He as [Hlo _].
  apply Qcmult_pos_pos; [|apply pow10_pos].
  rewrite <-ofZ_0. apply (proj1 (ofZ_lt _ _)).
  assert (0 < 10 ^ 33)%Z by reflexivity. lia.
Qed.

Lemma scaled_unscaled (x : Qc) (e : Z) : scaled x e * pow10 e = x.
Proof. unfold scaled. rewrite <-Qcmult_assoc, pow10_cancel. ring. Qed.

Lemma scaled_integral (m e e' : Z) :
  (10 ^ 33 ≤ m ≤ 10 ^ 34)%Z →
  normal (ofZ m * pow10 e) e' = true →
  ∃ m' : Z, scaled (ofZ m * pow10 e) e' = ofZ m'.
Proof.
  intros Hm. unfold normal. rewrite andb_true_iff, !bool_decide_eq_true.
  intros [Hlo _].
  unfold scaled in *. rewrite <-Qcmult_assoc, <-pow10_add in *.
  set (k := (e + - e')%Z) in *.
  destruct (decide (0 ≤ k)%Z) as [Hk|Hk].
  { exists (m * 10 ^ k)%Z. by rewrite pow10_nonneg, ofZ_mul. }
  exists (10 ^ 33)%Z.
  assert (Hj : (1 ≤ - k)%Z) by lia.
  assert (Hc : pow10 k * pow10 (- k) = 1).
  { rewrite <-pow10_add, <-pow10_0. f_equal. lia. }
  rewrite pow10_nonneg in Hlo by (unfold precision; lia).
  assert (Hm' : ofZ (10 ^ 33 * 10 ^ (- k)) ≤ ofZ m).
  { change (precision - 1)%Z with 33%Z in Hlo.
    rewrite ofZ_mul, <-(pow10_nonneg (- k)) by lia.
    replace (ofZ m) with (ofZ m * pow10 k * pow10 (- k))
      by (rewrite <-Qcmult_assoc, Hc; ring).
    apply Qcmult_le_compat_r; [exact Hlo|]. apply Qclt_le_weak, pow10_pos. }
  apply (proj2 (ofZ_le _ _)) in Hm'.
  assert (H10 : (10 ^ 1 ≤ 10 ^ (- k))%Z) by (apply Z.pow_le_mono_r; lia).
  assert (H34 : (10 ^ 34 = 10 ^ 33 * 10)%Z) by reflexivity.
  assert (H33 : (0 < 10 ^ 33)%Z) by reflexivity.
  rewrite Z.pow_1_r in H10.
  assert (Hp : (10 ^ (- k) = 10)%Z) by nia.
  assert (Hm34 : (m = 10 ^ 33 * 10)%Z) by nia.
  subst m.
  replace (ofZ (10 ^ 33)) with (ofZ (10 ^ 33) * (pow10 (- k) * pow10 k))
    by (rewrite (Qcmult_comm (pow10 (- k))), Hc; ring).
  rewrite (pow10_nonneg (- k)) by lia. rewrite Hp.
  rewrite Qcmult_assoc, <-ofZ_mul. reflexivity.
Qed.

Lemma roundPos_fixed (m e : Z) :
  (10 ^ 33 ≤ m ≤ 10 ^ 34)%Z → roundPos (ofZ m * pow10 e) = ofZ m * pow10 e.
Proof.
  intros Hm. unfold roundPos.
  destruct (exponent (ofZ m * pow10 e)) as [e'|] eqn:He'; [|done].
  apply exponent_normal in He'.
  destruct (scaled_integral m e e' Hm He') as [m' Hm'].
  rewrite Hm', nearest_ofZ, <-Hm'. apply scaled_unscaled.
Qed.

Lemma roundPos_idem (x : Qc) : roundPos (roundPos x) = roundPos x.
Proof.
  destruct (exponent x) as [e|] eqn:He.
  - assert (Hx : roundPos x = ofZ (nearest (scaled x e)) * pow10 e)
      by (unfold roundPos; by rewrite He).
    rewrite Hx. by apply roundPos_fixed, normal_bounds, exponent_normal.
  - assert (Hx : roundPos x = x) by (unfold roundPos; by rewrite He).
    by rewrite Hx.
Qed.

Lemma round_0 : round 0 = 0.
Proof. reflexivity. Qed.

Lemma round_pos (q : Qc) : 0 < q → 0 < round q.
Proof.
  intros Hq. unfold round.
  destruct (decide (q = 0)) as [->|_]; [by apply Qclt_not_eq in Hq|].
  destruct (decide (0 < q)); [by apply roundPos_pos|done].
Qed.

Lemma round_of_pos (q : Qc) : 0 < q → round q = roundPos q.
Proof.
  intros Hq. unfold round.
  destruct (decide (q = 0)) as [->|_]; [by apply Qclt_not_eq in Hq|].
  by destruct (decide (0 < q)).
Qed.

Lemma Qcopp_pos (q : Qc) : q < 0 → 0 < - q.
Proof. intros Hq. apply Qclt_minus_iff in Hq. by rewrite Qcplus_0_l in Hq. Qed.

Lemma Qcopp_neg (q : Qc) : 0 < q → - q < 0.
Proof.
  intros Hq. apply Qclt_minus_iff. rewrite Qcplus_0_l, Qcopp_involutive. done.
Qed.

Lemma round_of_neg (q : Qc) : q < 0 → round q = - roundPos (- q).
Proof.
  intros Hq. unfold round.
  destruct (decide (q = 0)) as [->|_]; [by apply Qclt_not_eq in Hq|].
  destruct (decide (0 < q)) as [Hp|]; [|done].
  exfalso. by apply (Qclt_not_le _ _ Hq), Qclt_le_weak.
Qed.

Lemma round_neg (q : Qc) : q < 0 → round q < 0.
Proof.
  intros Hq. rewrite round_of_neg by done.
  by apply Qcopp_neg, roundPos_pos, Qcopp_pos.
Qed.

Lemma Qc_trichotomy (q : Qc) : q < 0 ∨ q = 0 ∨ 0 < q.
Proof.
  destruct (Qclt_le_dec q 0) as [?|Hle]; [by left|right].
  destruct (Qcle_lt_or_eq _ _ Hle); [by right|by left].
Qed.

Lemma round_eq_0 (q : Qc) : round q = 0 ↔ q = 0.
Proof.
  split; [|by intros ->].
  intros Hr. destruct (Qc_trichotomy q) as [Hq|[Hq|Hq]]; [|done|].
  - apply round_neg in Hq. rewrite Hr in Hq. by apply Qclt_not_eq in Hq.
  - apply round_pos in Hq. rewrite Hr in Hq. by apply Qclt_not_eq in Hq.
Qed.

Lemma round_idem (q : Qc) : round (round q) = round q.
Proof.
  destruct (Qc_trichotomy q) as [Hq|[->|Hq]]; [| done |].
  - rewrite (round_of_neg q Hq).
    rewrite round_of_neg by by apply Qcopp_neg, roundPos_pos, Qcopp_pos.
    by rewrite Qcopp_involutive, roundPos_idem.
  - rewrite (round_of_pos q Hq).
    rewrite round_of_pos by by apply roundPos_pos.
    apply roundPos_idem.
Qed.

Lemma round_opp (q : Qc) : round (- q) = - round q.
Proof.
  destruct (Qc_trichotomy q) as [Hq|[->|Hq]]; [| done |].
  - rewrite (round_of_neg q Hq), Qcopp_involutive.
    by apply round_of_pos, Qcopp_pos.
  - rewrite (round_of_pos q Hq). rewrite round_of_neg by by apply Qcopp_neg.
    by rewrite Qcopp_involutive.
Qed.

(** Decimals of at most 34 significant digits are not changed. *)
Lemma significand_exists (k : nat) (n : Z) :
  (0 < n)%Z → (10 ^ (33 - Z.of_nat k) ≤ n < 10 ^ 34)%Z →
  ∃ j, (0 ≤ j)%Z ∧ (10 ^ 33 ≤ n * 10 ^ j < 10 ^ 34)%Z.
Proof.
  assert (H34 : (10 ^ 34 = 10 * 10 ^ 33)%Z) by reflexivity.
  revert n. induction k as [|k IH]; intros n Hpos [Hlo Hhi].
  - exists 0%Z. rewrite Z.pow_0_r, Z.mul_1_r, Z.sub_0_r in *. lia.
  - destruct (decide (10 ^ 33 ≤ n)%Z) as [Hn|Hn].
    { exists 0%Z. rewrite Z.pow_0_r, Z.mul_1_r. lia. }
    destruct (IH (n * 10)%Z) as (j & Hj & Hm); [lia| |].
    + split; [|lia].
      destruct (decide (0 ≤ 33 - Z.of_nat (S k))%Z) as [Hk|Hk].
      * replace (33 - Z.of_nat k)%Z with (Z.succ (33 - Z.of_nat (S k)))%Z by lia.
        rewrite Z.pow_succ_r by done. lia.
      * assert (10 ^ (33 - Z.of_nat k) ≤ 1)%Z; [|lia].
        destruct (decide (33 - Z.of_nat k = 0)%Z) as [->|?]; [done|].
        rewrite Z.pow_neg_r by lia. lia.
    + exists (Z.succ j). split; [lia|].
      rewrite Z.pow_succ_r by done. by rewrite Z.mul_assoc.
Qed.

Lemma roundPos_representable (n e : Z) :
  (0 < n < 10 ^ 34)%Z → roundPos (ofZ n * pow10 e) = ofZ n * pow10 e.
Proof.
  intros [Hpos Hhi].
  destruct (significand_exists 34 n Hpos) as (j & Hj & Hm).
  { split; [|done]. rewrite Z.pow_neg_r by lia. lia. }
  replace (ofZ n * pow10 e) with (ofZ (n * 10 ^ j) * pow10 (e - j)).
  { apply roundPos_fixed. lia. }
  rewrite ofZ_mul, <-pow10_nonneg, <-Qcmult_assoc, <-pow10_add by done.
  do 2 f_equal. lia.
Qed.

Lemma ofZ_opp (n : Z) : ofZ (- n) = - ofZ n.
Proof. rewrite !ofZ_Z2Qc. apply Z2Qc_inj_opp. Qed.

Lemma round_representable (n e : Z) :
  (- 10 ^ 34 < n < 10 ^ 34)%Z → round (ofZ n * pow10 e) = ofZ n * pow10 e.
Proof.
  intros Hn. destruct (Z.lt_trichotomy n 0) as [Hneg|[->|Hpos]].
  - replace (ofZ n * pow10 e) with (- (ofZ (- n) * pow10 e))
      by (rewrite ofZ_opp; ring).
    rewrite round_opp. f_equal.
    rewrite round_of_pos.
    + apply roundPos_representable. lia.
    + apply Qcmult_pos_pos; [|apply pow10_pos].
      rewrite <-ofZ_0. apply (proj1 (ofZ_lt _ _)). lia.
  - rewrite ofZ_0, Qcmult_0_l. apply round_0.
  - rewrite round_of_pos.
    + apply roundPos_representable. lia.
    + apply Qcmult_pos_pos; [|apply pow10_pos].
      rewrite <-ofZ_0. by apply (proj1 (ofZ_lt _ _)).
Qed.

Lemma round_ofZ (n : Z) : (- 10 ^ 34 < n < 10 ^ 34)%Z → round (ofZ n) = ofZ n.
Proof.
  intros Hn. rewrite <-(Qcmult_1_r (ofZ n)), <-pow10_0.
  by apply round_representable.
Qed.

(** Rounding does not cross 1. *)
Lemma ofZ_1 : ofZ 1 = 1.
Proof. by apply Qc_is_canon. Qed.

Lemma pow10_ge_1 (k : Z) : (0 ≤ k)%Z → 1 ≤ pow10 k.
Proof.
  intros Hk. rewrite pow10_nonneg, <-ofZ_1 by done.
  apply (proj1 (ofZ_le _ _)).
  pose proof (Z.pow_pos_nonneg 10 k). lia.
Qed.

Lemma roundPos_ge_one (x : Qc) : 1 ≤ x → 1 ≤ roundPos x.
Proof.
  intros Hx. unfold roundPos.
  destruct (exponent x) as [e|] eqn:He; [|done].
  apply exponent_normal in He. pose proof (normal_bounds _ _ He) as [Hlo _].
  assert (H33 : (1 ≤ 10 ^ 33)%Z) by done.
  destruct (decide (0 ≤ e)%Z) as [Hpos|Hneg].
  - assert (Hm : 1 ≤ ofZ (nearest (scaled x e))).
    { rewrite <-ofZ_1. apply (proj1 (ofZ_le _ _)). lia. }
    eapply Qcle_trans; [exact Hm|].
    rewrite <-(Qcmult_1_r (ofZ _)) at 1.
    apply Qcmult_le_mono_nonneg_l; [|by apply pow10_ge_1].
    eapply Qcle_trans; [|exact Hm]. done.
  - assert (Hk : ofZ (10 ^ (- e)) ≤ scaled x e).
    { unfold scaled. rewrite <-pow10_nonneg by lia.
      rewrite <-(Qcmult_1_l (pow10 (- e))) at 1.
      apply Qcmult_le_compat_r; [done|]. apply Qclt_le_weak, pow10_pos. }
    apply nearest_lower, (proj1 (ofZ_le _ _)) in Hk.
    rewrite <-pow10_nonneg in Hk by lia.
    rewrite <-(pow10_cancel e).
    apply Qcmult_le_compat_r; [done|]. apply Qclt_le_weak, pow10_pos.
Qed.

Lemma roundPos_le_one (x : Qc) : 0 < x → x ≤ 1 → roundPos x ≤ 1.
Proof.
  intros Hpos Hx. unfold roundPos.
  destruct (exponent x) as [e|] eqn:He; [|done].
  apply exponent_normal in He.
  assert (Hs : pow10 33 ≤ scaled x e).
  { unfold normal in He. apply andb_true_iff in He as [He _].
    by apply bool_decide_eq_true in He. }
  assert (Hle : scaled x e ≤ pow10 (- e)).
  { unfold scaled. rewrite <-(Qcmult_1_l (pow10 (- e))) at 2.
    apply Qcmult_le_compat_r; [done|]. apply Qclt_le_weak, pow10_pos. }
  assert (Hneg : (e < 0)%Z).
  { destruct (decide (e < 0)%Z) as [|Hge]; [done|]. exfalso.
    assert (Hp : pow10 33 ≤ pow10 (- e)) by by eapply Qcle_trans.
    assert (Hq : pow10 (- e) ≤ 1).
    { rewrite <-(pow10_cancel e).
      rewrite <-(Qcmult_1_r (pow10 (- e))) at 1.
      apply Qcmult_le_mono_nonneg_l; [apply Qclt_le_weak, pow10_pos|].
      apply pow10_ge_1. lia. }
    assert (Habs : pow10 33 ≤ 1) by by eapply Qcle_trans.
    rewrite pow10_nonneg, <-ofZ_1 in Habs by done.
    by apply (proj2 (ofZ_le _ _)) in Habs. }
  rewrite pow10_nonneg in Hle by lia.
  apply nearest_upper, (proj1 (ofZ_le _ _)) in Hle.
  rewrite <-pow10_nonneg in Hle by lia.
  rewrite <-(pow10_cancel e).
  apply Qcmult_le_compat_r; [done|]. apply Qclt_le_weak, pow10_pos.
Qed.

Lemma round_ge_one (x : Qc) : 1 ≤ x → 1 ≤ round x.
Proof.
  intros Hx. rewrite round_of_pos; [by apply roundPos_ge_one|].
  eapply Qclt_le_trans; [|exact Hx]. done.
Qed.

Lemma round_le_one (x : Qc) : x ≤ 1 → round x ≤ 1.
Proof.
  intros Hx. destruct (Qc_trichotomy x) as [Hq|[->|Hq]].
  - apply Qclt_le_weak. eapply Qclt_trans; [apply round_neg, Hq|done].
  - done.
  - rewrite round_of_pos by done. by apply roundPos_le_one.
Qed.

(** The exponent is always found: what [roundPos] returns is a 34-digit
    significand times a power of ten, at most half a unit of its last digit
    away from the argument. *)
Lemma digits_go_spec (fuel : nat) (n : Z) :
  (1 ≤ n < 2 ^ Z.of_nat (S fuel))%Z →
  (1 ≤ digits_go fuel n)%Z ∧
  (10 ^ (digits_go fuel n - 1) ≤ n < 10 ^ digits_go fuel n)%Z.
Proof.
  revert n. induction fuel as [|fuel IH]; intros n [Hlo Hhi].
  - assert (n = 1)%Z as -> by (change (2 ^ Z.of_nat 1)%Z with 2%Z in Hhi; lia).
    by cbn.
  - cbn [digits_go]. destruct (decide (n < 10)%Z) as [Hn|Hn]; [by cbn; lia|].
    rewrite Nat2Z.inj_succ, Z.pow_succ_r in Hhi by lia.
    destruct (IH (n / 10)%Z) as (Hd & Hlo' & Hhi').
    { split; [apply Z.div_le_lower_bound; lia|].
      apply Z.div_lt_upper_bound; lia. }
    set (d := digits_go fuel (n / 10)) in *.
    split; [lia|].
    replace (1 + d - 1)%Z with (Z.succ (d - 1)) by lia.
    replace (1 + d)%Z with (Z.succ d) by lia.
    rewrite !Z.pow_succ_r by lia.
    pose proof (Z.mul_div_le n 10). pose proof (Z.mod_pos_bound n 10).
    pose proof (Z.div_mod n 10). lia.
Qed.

Lemma digits_spec (n : Z) :
  (1 ≤ n)%Z →
  (1 ≤ digits n)%Z ∧ (10 ^ (digits n - 1) ≤ n < 10 ^ digits n)%Z.
Proof.
  intros Hn. apply digits_go_spec. split; [done|].
  rewrite Nat2Z.inj_succ, Z2Nat.id by apply Z.log2_nonneg.
  apply Z.log2_spec. lia.
Qed.

Lemma Qc_num_den (x : Qc) : x = ofZ (Qnum x) / ofZ (Zpos (Qden x)).
Proof.
  apply Qc_is_canon. unfold Qcdiv, Qcmult, Qcinv, ofZ. simpl.
  rewrite !Qred_correct. destruct x as [[p q] Hx]. simpl.
  apply Qmake_Qdiv.
Qed.

Lemma normal_iff (x : Qc) (e : Z) :
  normal x e = true ↔ pow10 33 ≤ scaled x e ∧ scaled x e < pow10 34.
Proof.
  unfold normal. by rewrite andb_true_iff, !bool_decide_eq_true.
Qed.

Lemma pow10_succ (k : Z) : pow10 (k + 1) = pow10 k * ofZ 10.
Proof. rewrite pow10_add; f_equal; by apply Qc_is_canon. Qed.

Lemma scaled_bounds (x : Qc) :
  0 < x →
  let e := (digits (Qnum x) - digits (Zpos (Qden x)) - precision)%Z in
  pow10 33 ≤ scaled x e ∧ scaled x e < pow10 35.
Proof.
  intros Hx e.
  assert (Hp : (1 ≤ Qnum x)%Z).
  { destruct x as [[p q] Hc]. unfold Qclt, Qlt in Hx. simpl in *. lia. }
  destruct (digits_spec (Qnum x) Hp) as (Ha & Hpl & Hph).
  destruct (digits_spec (Zpos (Qden x))) as (Hb & Hql & Hqh); [lia|].
  set (a := digits (Qnum x)) in *. set (b := digits (Zpos (Qden x))) in *.
  set (P := ofZ (Qnum x)). set (D := ofZ (Zpos (Qden x))).
  assert (HD : 0 < D) by (rewrite <-ofZ_0; apply (proj1 (ofZ_lt _ _)); lia).
  assert (HDnz : D ≠ 0) by by apply not_symmetry, Qclt_not_eq.
  assert (HPl : pow10 (a - 1) ≤ P).
  { rewrite pow10_nonneg by lia. by apply (proj1 (ofZ_le _ _)). }
  assert (HPh : P < pow10 a).
  { rewrite pow10_nonneg by lia. by apply (proj1 (ofZ_lt _ _)). }
  assert (HDl : pow10 (b - 1) ≤ D).
  { rewrite pow10_nonneg by lia. by apply (proj1 (ofZ_le _ _)). }
  assert (HDh : D < pow10 b).
  { rewrite pow10_nonneg by lia. by apply (proj1 (ofZ_lt _ _)). }
  assert (Hs : scaled x e = P * pow10 (- e) * / D).
  { unfold scaled. rewrite (Qc_num_den x) at 1. fold P D.
    unfold Qcdiv. ring. }
  rewrite Hs. split.
  - apply (Qcmult_le_mono_pos_r _ _ D); [done|].
    rewrite <-Qcmult_assoc, (Qcmult_comm (/ D)), Qcmult_inv_r, Qcmult_1_r by done.
    apply Qcle_trans with (pow10 33 * pow10 b).
    { apply Qcmult_le_mono_nonneg_l; [apply Qclt_le_weak, pow10_pos|].
      by apply Qclt_le_weak. }
    apply Qcle_trans with (pow10 (a - 1) * pow10 (- e)).
    { rewrite <-!pow10_add. replace (33 + b)%Z with (a - 1 + - e)%Z; [done|].
      unfold e, precision. lia. }
    apply Qcmult_le_mono_nonneg_r; [apply Qclt_le_weak, pow10_pos|done].
  - apply (Qcmult_lt_mono_pos_r _ _ D); [done|].
    rewrite <-Qcmult_assoc, (Qcmult_comm (/ D)), Qcmult_inv_r, Qcmult_1_r by done.
    apply Qclt_le_trans with (pow10 a * pow10 (- e)).
    { apply Qcmult_lt_mono_pos_r; [apply pow10_pos|done]. }
    apply Qcle_trans with (pow10 35 * pow10 (b - 1)).
    { rewrite <-!pow10_add. replace (a + - e)%Z with (35 + (b - 1))%Z; [done|].
      unfold e, precision. lia. }
    apply Qcmult_le_mono_nonneg_l; [apply Qclt_le_weak, pow10_pos|done].
Qed.

Lemma exponent_total (x : Qc) : 0 < x → ∃ e, exponent x = Some e.
Proof.
  intros Hx. destruct (scaled_bounds x Hx) as [Hlo Hhi].
  unfold exponent.
  set (e := (digits (Qnum x) - digits (Zpos (Qden x)) - precision)%Z) in *.
  cbn [find].
  destruct (decide (normal x e = true)) as [Hn|Hn]; [rewrite Hn; by eexists|].
  apply not_true_is_false in Hn. rewrite Hn.
  assert (Hge : pow10 34 ≤ scaled x e).
  { apply Qcnot_lt_le. intros Hlt. apply not_true_iff_false in Hn.
    apply Hn, normal_iff. by split. }
  assert (Hs : scaled x e = scaled x (e + 1) * ofZ 10).
  { unfold scaled. rewrite <-Qcmult_assoc, <-pow10_succ. do 2 f_equal. lia. }
  assert (H10 : 0 < ofZ 10) by done.
  assert (Hn' : normal x (e + 1) = true).
  { apply normal_iff. split.
    - apply (Qcmult_le_mono_pos_r _ _ (ofZ 10)); [done|].
      by rewrite <-Hs, <-pow10_succ.
    - apply (Qcmult_lt_mono_pos_r _ _ (ofZ 10)); [done|].
      by rewrite <-Hs, <-pow10_succ. }
  rewrite Hn'. by eexists.
Qed.

Lemma nearest_close (y : Qc) :
  ofZ (nearest y) - / ofZ 2 ≤ y ∧ y < ofZ (nearest y) + / ofZ 2.
Proof.
  unfold nearest.
  pose proof (Qfloor_le (y + (1 # 2))%Q) as Hle.
  pose proof (Qlt_floor (y + (1 # 2))%Q) as Hlt.
  set (f := Qfloor _) in *.
  split.
  - unfold Qcle, Qcminus, Qcplus, Qcopp. simpl this at 1.
    rewrite !Qred_correct. change (/ inject_Z 2)%Q with (1 # 2)%Q.
    apply (Qplus_le_l _ _ (1 # 2)).
    assert (Heq : (inject_Z f + - (1 # 2) + (1 # 2) == inject_Z f)%Q) by ring.
    rewrite Heq. exact Hle.
  - unfold Qclt, Qcplus. simpl this at 2.
    rewrite !Qred_correct. change (/ inject_Z 2)%Q with (1 # 2)%Q.
    apply (Qplus_lt_l _ _ (1 # 2)).
    eapply Qlt_le_trans; [exact Hlt|].
    rewrite inject_Z_plus.
    assert (Heq : (inject_Z f + (1 # 2) + (1 # 2)
                   == inject_Z f + inject_Z 1)%Q) by ring.
    rewrite Heq. apply Qle_refl.
Qed.

(** [roundPos] rounds to 34 significant digits. *)
Lemma roundPos_spec (x : Qc) :
  0 < x →
  ∃ e m,
    roundPos x = ofZ m * pow10 e ∧
    (10 ^ 33 ≤ m ≤ 10 ^ 34)%Z ∧
    (ofZ m - / ofZ 2) * pow10 e ≤ x ∧
    x < (ofZ m + / ofZ 2) * pow10 e.
Proof.
  intros Hx. destruct (exponent_total x Hx) as [e He].
  exists e, (nearest (scaled x e)).
  split; [unfold roundPos; by rewrite He|].
  split; [by apply normal_bounds, exponent_normal|].
  destruct (nearest_close (scaled x e)) as [Hlo Hhi].
  rewrite <-(scaled_unscaled x e) at 2 3.
  split.
  - apply Qcmult_le_mono_nonneg_r; [apply Qclt_le_weak, pow10_pos|done].
  - apply Qcmult_lt_mono_pos_r; [apply pow10_pos|done].
Qed.

End BDFacts.

Module IndexerFacts.
Import Indexer BDFacts.
Section Facts.
Context `{Conversions} `{SnapshotLedger}.

Lemma run_bind {A B} (m : Method A) (k : A → Method B) s a s' :
  m s = Some (a, s') → (m ≫= k) s = k a s'.
Proof. intros Hm. unfold mbind, Method_bind. by rewrite Hm. Qed.

Lemma run_getM {A} (g : t → option A) ix w a :
  g ix = Some a → getM g (ix, w) = Some (a, (ix, w)).
Proof. intros Hg. unfold getM, lift. cbn. by rewrite Hg. Qed.

Lemma run_snapshot_cached e b sn ds os als w :
  snapshot (mkIndexer e b (Some sn) ds os als, w)
  = Some (sn, (mkIndexer e b (Some sn) ds os als, w)).
Proof. reflexivity. Qed.

Lemma run_onSnapshot op e b sn ds os als w :
  ∃ sn' st,
    onSnapshot op (mkIndexer e b sn ds os als, w)
    = Some (tt, (mkIndexer e b (Some sn') ds os als,
                 mkWorld (indexers w) st (parameterUpdates w))).
Proof.
  unfold onSnapshot.
  destruct sn as [sn|].
  - erewrite run_bind by apply run_snapshot_cached. unfold act. cbn. eauto.
  - erewrite run_bind by reflexivity. unfold act. cbn. eauto.
Qed.

(** The derived getters read the three cached stakes only. *)
Ltac norm_getters ix0 :=
  repeat match goal with
  | |- context [allocationRatio ?i] =>
      progress change (allocationRatio i) with (allocationRatio ix0)
  | |- context [delegationRatio ?i] =>
      progress change (delegationRatio i) with (delegationRatio ix0)
  | |- context [isOverDelegated ?i] =>
      progress change (isOverDelegated i) with (isOverDelegated ix0)
  | |- context [maximumDelegation ?i] =>
      progress change (maximumDelegation i) with (maximumDelegation ix0)
  | |- context [ownStake ?i] =>
      progress change (ownStake i) with (ownStake ix0)
  | |- context [delegatedStake ?i] =>
      progress change (delegatedStake i) with (delegatedStake ix0)
  | |- context [allocatedStake ?i] =>
      progress change (allocatedStake i) with (allocatedStake ix0)
  | |- context [delegationPoolShares ?i] =>
      progress change (delegationPoolShares i) with (delegationPoolShares ix0)
  end.

Ltac state_simpl ix0 :=
  unfold set_indexerEntity, set_snapshot, set_indexers, set_snapshots,
         set_parameterUpdates;
  cbn [indexerEntity currentBlock _snapshot _delegatedStake _ownStake
       _allocatedStake indexers snapshots parameterUpdates fst snd];
  norm_getters ix0.

(** Run the next statement of a method body: a primitive step, a cached
    snapshot read, or a fallible getter whose value is among the
    hypotheses. *)
Ltac step ix0 :=
  first [ erewrite run_bind by reflexivity
        | erewrite run_bind by apply run_snapshot_cached
        | erewrite run_bind by (apply run_getM; eassumption)
        | erewrite run_bind by eassumption ];
  state_simpl ix0.

(** *** The guarded divisions never fault *)

Lemma equals_true x y : BD.equals x y = true ↔ x = y.
Proof. unfold BD.equals. apply bool_decide_eq_true. Qed.

Lemma equals_false x y : BD.equals x y = false ↔ x ≠ y.
Proof. unfold BD.equals. apply bool_decide_eq_false. Qed.

Lemma gt_true x y : BD.gt x y = true ↔ (y < x)%Qc.
Proof. unfold BD.gt. apply bool_decide_eq_true. Qed.

Lemma div_nonzero x y :
  y ≠ zeroBD → BD.div x y = Some (BD.round (x / y)%Qc).
Proof. intros Hy. unfold BD.div. by rewrite decide_False. Qed.

Lemma sixteenBD_nonzero : sixteenBD ≠ zeroBD.
Proof. done. Qed.

Lemma maximumDelegation_nonzero ix :
  ownStake ix ≠ zeroBD → maximumDelegation ix ≠ zeroBD.
Proof.
  intros Hown Hmax. unfold maximumDelegation, BD.times in Hmax.
  apply (proj1 (round_eq_0 _)) in Hmax.
  apply Qcmult_integral in Hmax as [?|?]; [done | by apply sixteenBD_nonzero].
Qed.

Lemma allocationRatio_value ix :
  allocationRatio ix
  = Some (if BD.equals (allocationCapacity ix) zeroBD then zeroBD
          else BD.round (allocatedStake ix / allocationCapacity ix)%Qc).
Proof.
  unfold allocationRatio.
  destruct (BD.equals (allocationCapacity ix) zeroBD) eqn:Hcap; [done|].
  apply div_nonzero. by apply equals_false.
Qed.

Lemma delegationRatio_value ix :
  delegationRatio ix
  = Some (if BD.equals (ownStake ix) zeroBD then zeroBD
          else BD.round (delegatedStake ix / maximumDelegation ix)%Qc).
Proof.
  unfold delegationRatio.
  destruct (BD.equals (ownStake ix) zeroBD) eqn:Hown; [done|].
  apply div_nonzero, maximumDelegation_nonzero. by apply equals_false.
Qed.

Lemma run_monthlyDelegatorRewardRate sn ds st :
  ∃ r, ∀ e b os als m pus,
    monthlyDelegatorRewardRate
      (mkIndexer e b (Some sn) ds os als, mkWorld m st pus)
    = Some (r, (mkIndexer e b (Some sn) ds os als, mkWorld m st pus)).
Proof.
  unfold monthlyDelegatorRewardRate.
  destruct (BD.equals ds zeroBD) eqn:Hd.
  - exists zeroBD. intros. erewrite run_bind by reflexivity.
    cbn [fst snd]. unfold delegatedStake. cbn [_delegatedStake].
    by rewrite Hd.
  - exists (BD.round (snapshot_previousMonthRewards sn st / ds)%Qc). intros.
    erewrite run_bind by reflexivity.
    cbn [fst snd]. unfold delegatedStake. cbn [_delegatedStake].
    rewrite Hd.
    erewrite run_bind by apply run_snapshot_cached.
    unfold act, lift. cbn [fst snd snapshots].
    by rewrite div_nonzero by by apply equals_false.
Qed.

(** *** What each mutator does to the object and the store *)

Lemma run_updateOwnStake ownStakeDelta ix w :
  ∃ sn st ar dr,
    updateOwnStake ownStakeDelta (ix, w)
    = Some (tt,
        let e' :=
          IndexerEntity.set_delegationRatio dr
            (IndexerEntity.set_allocationRatio ar
               (IndexerEntity.set_isOverDelegated (isOverDelegated ix)
                  (IndexerEntity.set_maximumDelegation (maximumDelegation ix)
                     (IndexerEntity.set_ownStake
                        (BD.plus (ownStake ix) ownStakeDelta)
                        (IndexerEntity.set_lastSnapshot (Some (snapshot_id sn))
                           (indexerEntity ix)))))) in
        (mkIndexer e' (currentBlock ix) (Some sn)
           (_delegatedStake ix) (_ownStake ix) (_allocatedStake ix),
         mkWorld (<[id ix := e']> (indexers w)) st (parameterUpdates w))).
Proof.
  pose proof (allocationRatio_value ix) as Har.
  pose proof (delegationRatio_value ix) as Hdr.
  destruct ix as [e b sn ds os als].
  set (ix0 := mkIndexer e b sn ds os als) in *.
  destruct (run_onSnapshot (snapshot_updateOwnStake ownStakeDelta)
              e b sn ds os als w) as (sn' & st & Hs).
  exists sn', st. eexists _, _.
  unfold updateOwnStake.
  repeat step ix0.
  reflexivity.
Qed.

Lemma run_updateDelegatedStake delegatedStakeDelta delegationPoolSharesDelta ix w :
  ∃ sn st ar dr rate,
    updateDelegatedStake delegatedStakeDelta delegationPoolSharesDelta (ix, w)
    = Some (tt,
        let e' :=
          IndexerEntity.set_monthlyDelegatorRewardRate rate
            (IndexerEntity.set_delegationRatio dr
               (IndexerEntity.set_allocationRatio ar
                  (IndexerEntity.set_isOverDelegated (isOverDelegated ix)
                     (IndexerEntity.set_delegationPoolShares
                        (Some (delegationPoolShares ix
                               + delegationPoolSharesDelta))
                        (IndexerEntity.set_delegatedStake
                           (BD.plus (delegatedStake ix) delegatedStakeDelta)
                           (IndexerEntity.set_lastSnapshot
                              (Some (snapshot_id sn))
                              (indexerEntity ix))))))) in
        (mkIndexer e' (currentBlock ix) (Some sn)
           (_delegatedStake ix) (_ownStake ix) (_allocatedStake ix),
         mkWorld (<[id ix := e']> (indexers w)) st (parameterUpdates w))).
Proof.
  pose proof (allocationRatio_value ix) as Har.
  pose proof (delegationRatio_value ix) as Hdr.
  destruct ix as [e b sn ds os als].
  set (ix0 := mkIndexer e b sn ds os als) in *.
  destruct (run_onSnapshot (snapshot_updateDelegatedStake delegatedStakeDelta)
              e b sn ds os als w) as (sn' & st & Hs).
  destruct (run_monthlyDelegatorRewardRate sn' ds st) as [rate Hrate].
  exists sn', st. eexists _, _, rate.
  unfold updateDelegatedStake.
  repeat step ix0.
  erewrite run_bind by apply Hrate.
  repeat step ix0.
  reflexivity.
Qed.

Lemma run_updateAllocatedStake newAllocatedStakeDelta ix w :
  ∃ ar,
    updateAllocatedStake newAllocatedStakeDelta (ix, w)
    = Some (tt,
        let e' :=
          IndexerEntity.set_allocationRatio ar
            (IndexerEntity.set_allocatedStake
               (BD.plus (allocatedStake ix) newAllocatedStakeDelta)
               (indexerEntity ix)) in
        (mkIndexer e' (currentBlock ix) (_snapshot ix)
           (_delegatedStake ix) (_ownStake ix) (_allocatedStake ix),
         mkWorld (<[id ix := e']> (indexers w))
                 (snapshots w) (parameterUpdates w))).
Proof.
  pose proof (allocationRatio_value ix) as Har.
  destruct ix as [e b sn ds os als].
  set (ix0 := mkIndexer e b sn ds os als) in *.
  eexists.
  unfold updateAllocatedStake.
  repeat step ix0.
  reflexivity.
Qed.

(** *** Arithmetic of the decimal model *)

Ltac bd_unfold :=
  unfold zeroBD, sixteenBD, BD.ofZ in *;
  change (Q2Qc (inject_Z 0)) with 0%Qc in *.

Lemma plus_zero_l x : BD.plus zeroBD x = BD.round x.
Proof. unfold BD.plus. f_equal. bd_unfold. ring. Qed.

Lemma plus_zero_zero : BD.plus zeroBD zeroBD = zeroBD.
Proof. by rewrite plus_zero_l. Qed.

Lemma times_zero_l x : BD.times zeroBD x = zeroBD.
Proof.
  unfold BD.times. replace (zeroBD * x)%Qc with 0%Qc by (bd_unfold; ring).
  done.
Qed.

(** Integers of at most 34 digits are decimals, and so are their sums and
    products. *)
Lemma plus_zero_ofZ n :
  - 10 ^ 34 < n < 10 ^ 34 → BD.plus zeroBD (BD.ofZ n) = BD.ofZ n.
Proof. intros Hn. rewrite plus_zero_l. by apply round_ofZ. Qed.

Lemma times_ofZ n m :
  - 10 ^ 34 < n * m < 10 ^ 34 → BD.times (BD.ofZ n) (BD.ofZ m) = BD.ofZ (n * m).
Proof. intros Hn. unfold BD.times. rewrite <-ofZ_mul. by apply round_ofZ. Qed.

Lemma ofZ_inj n m : BD.ofZ n = BD.ofZ m → n = m.
Proof. rewrite !ofZ_Z2Qc. apply Z2Qc_inj. Qed.

(** A constructed object on an empty indexer table starts from zero. *)
Lemma constructor_fresh a b w :
  indexers w !! toHex a = None →
  ownStake (constructor a b w) = zeroBD ∧
  delegatedStake (constructor a b w) = zeroBD ∧
  allocatedStake (constructor a b w) = zeroBD ∧
  delegationPoolShares (constructor a b w) = oneBI ∧
  id (constructor a b w) = toHex a ∧
  IndexerEntity.maximumDelegation (indexerEntity (constructor a b w)) = zeroBD.
Proof.
  intros Hnone. unfold constructor, ownStake, delegatedStake, allocatedStake,
    delegationPoolShares, id.
  rewrite Hnone. by cbn.
Qed.

(** *** The persisted derived fields *)

(** C1 (defect of the code).  [updateOwnStake] stores [maximumDelegation]
    from the own stake cached at construction, not from the own stake it
    has just stored: a deposit of 100 on a new indexer persists
    [ownStake = 100] together with [maximumDelegation = 0], which is not
    [ownStake × 16]. *)
Theorem updateOwnStake_stale_maximumDelegation
    (a : Address) (b : Block) (st : SnapshotTable) (pus : list ParameterUpdate) :
  let w := mkWorld ∅ st pus in
  persists (updateOwnStake (BD.ofZ 100)) (constructor a b w) w
    (λ _ e',
       IndexerEntity.ownStake e' = BD.ofZ 100 ∧
       IndexerEntity.maximumDelegation e' = zeroBD ∧
       IndexerEntity.maximumDelegation e'
         ≠ BD.times (IndexerEntity.ownStake e') sixteenBD).
Proof.
  intros w.
  destruct (constructor_fresh a b w) as (Hown & _); [apply lookup_empty|].
  destruct (run_updateOwnStake (BD.ofZ 100) (constructor a b w) w)
    as (sn & st' & ar & dr & Hrun).
  eexists _, _. split; [exact Hrun|]. cbn zeta.
  cbn [indexers indexerEntity]. split; [apply lookup_insert_eq|].
  cbn. unfold maximumDelegation.
  rewrite Hown, plus_zero_ofZ, times_zero_l by (split; reflexivity).
  split; [done|]. split; [done|].
  unfold sixteenBD, zeroBD. rewrite times_ofZ by (split; reflexivity).
  intros Heq%ofZ_inj. lia.
Qed.

(** C2 (defect of the code).  [updateDelegatedStake] stores
    [isOverDelegated] from the delegated stake cached at construction, not
    from the delegated stake it has just stored: a delegation of 5 to a new
    indexer persists [delegatedStake = 5], [ownStake = 0],
    [maximumDelegation = 0] and [isOverDelegated = false], although
    [5 > 0 = 0 × 16]. *)
Theorem updateDelegatedStake_stale_isOverDelegated
    (a : Address) (b : Block) (st : SnapshotTable) (pus : list ParameterUpdate) :
  let w := mkWorld ∅ st pus in
  persists (updateDelegatedStake (BD.ofZ 5) zeroBI) (constructor a b w) w
    (λ _ e',
       IndexerEntity.delegatedStake e' = BD.ofZ 5 ∧
       IndexerEntity.ownStake e' = zeroBD ∧
       IndexerEntity.maximumDelegation e' = zeroBD ∧
       IndexerEntity.isOverDelegated e' = false ∧
       BD.gt (IndexerEntity.delegatedStake e')
             (IndexerEntity.maximumDelegation e') = true ∧
       BD.gt (IndexerEntity.delegatedStake e')
             (BD.times (IndexerEntity.ownStake e') sixteenBD) = true).
Proof.
  intros w.
  destruct (constructor_fresh a b w) as (Hown & Hdel & _); [apply lookup_empty|].
  destruct (run_updateDelegatedStake (BD.ofZ 5) zeroBI (constructor a b w) w)
    as (sn & st' & ar & dr & rate & Hrun).
  eexists _, _. split; [exact Hrun|]. cbn zeta.
  cbn [indexers indexerEntity]. split; [apply lookup_insert_eq|].
  cbn. unfold isOverDelegated, maximumDelegation.
  rewrite Hown, Hdel, plus_zero_ofZ, times_zero_l by (split; reflexivity).
  by repeat split.
Qed.

(** *** The cached stakes *)

Lemma persists_updateOwnStake d ix w :
  persists (updateOwnStake d) ix w
    (λ ix' e',
       ownStake ix' = ownStake ix ∧
       delegatedStake ix' = delegatedStake ix ∧
       allocatedStake ix' = allocatedStake ix ∧
       IndexerEntity.ownStake e' = BD.plus (ownStake ix) d).
Proof.
  destruct (run_updateOwnStake d ix w) as (sn & st & ar & dr & Hrun).
  eexists _, _. split; [exact Hrun|]. cbn zeta.
  split; [apply lookup_insert_eq|]. by cbn.
Qed.

Lemma persists_updateDelegatedStake d sh ix w :
  persists (updateDelegatedStake d sh) ix w
    (λ ix' e',
       ownStake ix' = ownStake ix ∧
       delegatedStake ix' = delegatedStake ix ∧
       allocatedStake ix' = allocatedStake ix ∧
       IndexerEntity.delegatedStake e' = BD.plus (delegatedStake ix) d).
Proof.
  destruct (run_updateDelegatedStake d sh ix w)
    as (sn & st & ar & dr & rate & Hrun).
  eexists _, _. split; [exact Hrun|]. cbn zeta.
  split; [apply lookup_insert_eq|]. by cbn.
Qed.

Lemma persists_updateAllocatedStake d ix w :
  persists (updateAllocatedStake d) ix w
    (λ ix' e',
       ownStake ix' = ownStake ix ∧
       delegatedStake ix' = delegatedStake ix ∧
       allocatedStake ix' = allocatedStake ix ∧
       IndexerEntity.allocatedStake e' = BD.plus (allocatedStake ix) d).
Proof.
  destruct (run_updateAllocatedStake d ix w) as (ar & Hrun).
  eexists _, _. split; [exact Hrun|]. cbn zeta.
  split; [apply lookup_insert_eq|]. by cbn.
Qed.

(** Two calls in a row on one object: the second starts from the state the
    first has left, with the same id and the same cached stakes. *)
Lemma persists_twice (m1 m2 : Method unit) ix w
    (P1 : t → IndexerEntity.t → Prop) (P2 : t → IndexerEntity.t → Prop) :
  persists m1 ix w
    (λ ix1 _, id ix1 = id ix ∧ P1 ix1 (indexerEntity ix1)) →
  (∀ ix1 w1, P1 ix1 (indexerEntity ix1) →
     persists m2 ix1 w1 (λ ix2 e2, P2 ix2 e2)) →
  persists (m1;; m2) ix w P2.
Proof.
  intros (ix1 & w1 & Hrun1 & _ & Hid & HP1) Hm2.
  destruct (Hm2 ix1 w1 HP1) as (ix2 & w2 & Hrun2 & Hstored & HP2).
  exists ix2, w2. split; [by erewrite run_bind by exact Hrun1|].
  split; [by rewrite <-Hid|done].
Qed.

(** C5.  Each mutator leaves the values of the getters [ownStake],
    [delegatedStake] and [allocatedStake] of the object unchanged and persists
    the getter's value plus the delta; the getters of a constructed object
    return the stakes of the entity it was constructed from; and calling the
    same mutator twice on one object persists the construction-time value plus
    the second delta only. *)
Theorem mutators_use_construction_time_stakes
    (a : Address) (b : Block) (ix : t) (w : World)
    (d1 d2 : BigDecimal) (sh1 sh2 : BigInt) :
  (ownStake (constructor a b w)
     = IndexerEntity.ownStake (indexerEntity (constructor a b w)) ∧
   delegatedStake (constructor a b w)
     = IndexerEntity.delegatedStake (indexerEntity (constructor a b w)) ∧
   allocatedStake (constructor a b w)
     = IndexerEntity.allocatedStake (indexerEntity (constructor a b w))) ∧
  persists (updateOwnStake d1) ix w
    (λ ix' e',
       ownStake ix' = ownStake ix ∧
       delegatedStake ix' = delegatedStake ix ∧
       allocatedStake ix' = allocatedStake ix ∧
       IndexerEntity.ownStake e' = BD.plus (ownStake ix) d1) ∧
  persists (updateDelegatedStake d1 sh1) ix w
    (λ ix' e',
       ownStake ix' = ownStake ix ∧
       delegatedStake ix' = delegatedStake ix ∧
       allocatedStake ix' = allocatedStake ix ∧
       IndexerEntity.delegatedStake e' = BD.plus (delegatedStake ix) d1) ∧
  persists (updateAllocatedStake d1) ix w
    (λ ix' e',
       ownStake ix' = ownStake ix ∧
       delegatedStake ix' = delegatedStake ix ∧
       allocatedStake ix' = allocatedStake ix ∧
       IndexerEntity.allocatedStake e' = BD.plus (allocatedStake ix) d1) ∧
  persists (updateOwnStake d1;; updateOwnStake d2) ix w
    (λ _ e', IndexerEntity.ownStake e' = BD.plus (ownStake ix) d2) ∧
  persists (updateDelegatedStake d1 sh1;; updateDelegatedStake d2 sh2) ix w
    (λ _ e', IndexerEntity.delegatedStake e' = BD.plus (delegatedStake ix) d2) ∧
  persists (updateAllocatedStake d1;; updateAllocatedStake d2) ix w
    (λ _ e', IndexerEntity.allocatedStake e' = BD.plus (allocatedStake ix) d2).
Proof.
  split; [done|].
  split; [apply persists_updateOwnStake|].
  split; [apply persists_updateDelegatedStake|].
  split; [apply persists_updateAllocatedStake|].
  split; [|split].
  - apply (persists_twice _ _ _ _ (λ ix1 _, ownStake ix1 = ownStake ix)).
    + destruct (run_updateOwnStake d1 ix w) as (sn & st & ar & dr & Hrun).
      eexists _, _. split; [exact Hrun|]. cbn zeta.
      split; [apply lookup_insert_eq|]. by cbn.
    + intros ix1 w1 Hown.
      destruct (persists_updateOwnStake d2 ix1 w1)
        as (ix2 & w2 & Hrun & Hstored & _ & _ & _ & Hval).
      exists ix2, w2. by rewrite <-Hown.
  - apply (persists_twice _ _ _ _
             (λ ix1 _, delegatedStake ix1 = delegatedStake ix)).
    + destruct (run_updateDelegatedStake d1 sh1 ix w)
        as (sn & st & ar & dr & rate & Hrun).
      eexists _, _. split; [exact Hrun|]. cbn zeta.
      split; [apply lookup_insert_eq|]. by cbn.
    + intros ix1 w1 Hdel.
      destruct (persists_updateDelegatedStake d2 sh2 ix1 w1)
        as (ix2 & w2 & Hrun & Hstored & _ & _ & _ & Hval).
      exists ix2, w2. by rewrite <-Hdel.
  - apply (persists_twice _ _ _ _
             (λ ix1 _, allocatedStake ix1 = allocatedStake ix)).
    + destruct (run_updateAllocatedStake d1 ix w) as (ar & Hrun).
      eexists _, _. split; [exact Hrun|]. cbn zeta.
      split; [apply lookup_insert_eq|]. by cbn.
    + intros ix1 w1 Hall.
      destruct (persists_updateAllocatedStake d2 ix1 w1)
        as (ix2 & w2 & Hrun & Hstored & _ & _ & _ & Hval).
      exists ix2, w2. by rewrite <-Hall.
Qed.

(** *** The ratios *)

(** C6.  [allocationRatio] never faults; with
    [capacity = ownStake + (maximumDelegation if over-delegated, else
    delegatedStake)], the sum [BigDecimal.plus] returns, it is 0 when
    [capacity = 0] and [allocatedStake / capacity] otherwise, the quotient
    [BigDecimal.div] returns: the exact quotient rounded to 34 significant
    digits; in particular it is 0 when [ownStake = 0] and
    [delegatedStake = 0]. *)
Theorem allocationRatio_capacity (ix : t) :
  let capacity :=
    BD.plus (ownStake ix)
            (if isOverDelegated ix then maximumDelegation ix
             else delegatedStake ix) in
  allocationRatio ix
    = (if decide (capacity = zeroBD) then Some zeroBD
       else BD.div (allocatedStake ix) capacity) ∧
  allocationRatio ix
    = Some (if decide (capacity = zeroBD) then zeroBD
            else BD.round (allocatedStake ix / capacity)%Qc) ∧
  (ownStake ix = zeroBD → delegatedStake ix = zeroBD →
   allocationRatio ix = Some zeroBD).
Proof.
  intros capacity.
  assert (Hcap : allocationCapacity ix = capacity).
  { unfold allocationCapacity, capacity. by destruct (isOverDelegated ix). }
  assert (Hval : allocationRatio ix
    = Some (if decide (capacity = zeroBD) then zeroBD
            else BD.round (allocatedStake ix / capacity)%Qc)).
  { rewrite allocationRatio_value, Hcap. unfold BD.equals.
    rewrite bool_decide_decide. by destruct (decide (capacity = zeroBD)). }
  split; [|split; [exact Hval|]].
  - unfold allocationRatio. rewrite Hcap. unfold BD.equals.
    rewrite bool_decide_decide. by destruct (decide (capacity = zeroBD)).
  - intros Hown Hdel. rewrite Hval, decide_True; [done|].
    unfold capacity, isOverDelegated, maximumDelegation.
    rewrite Hown, Hdel, times_zero_l.
    destruct (BD.gt zeroBD zeroBD); apply plus_zero_zero.
Qed.

Lemma maximumDelegation_pos ix :
  (0 < ownStake ix)%Qc → (0 < maximumDelegation ix)%Qc.
Proof.
  intros Hown. unfold maximumDelegation, BD.times.
  by apply round_pos, Qcmult_pos_pos.
Qed.

Lemma maximumDelegation_neg ix :
  (ownStake ix < 0)%Qc → (maximumDelegation ix < 0)%Qc.
Proof.
  intros Hown. unfold maximumDelegation, BD.times.
  apply round_neg.
  replace 0%Qc with (0 * sixteenBD)%Qc by ring.
  by apply Qcmult_lt_compat_r.
Qed.

(** Over-delegation in terms of the exact quotient, for an own stake that is
    not zero. *)
Lemma isOverDelegated_quotient_pos ix :
  (0 < ownStake ix)%Qc →
  (1 < delegatedStake ix / maximumDelegation ix)%Qc ↔ isOverDelegated ix = true.
Proof.
  intros Hown. pose proof (maximumDelegation_pos ix Hown) as Hpos.
  assert (Hnz : maximumDelegation ix ≠ 0%Qc).
  { intros Heq. rewrite Heq in Hpos. by apply Qclt_not_eq in Hpos. }
  unfold isOverDelegated. rewrite gt_true. split.
  - intros Hgt.
    apply (Qcmult_lt_compat_r _ _ _ Hpos) in Hgt.
    rewrite Qcmult_1_l in Hgt.
    replace (delegatedStake ix / maximumDelegation ix * maximumDelegation ix)%Qc
      with (delegatedStake ix) in Hgt; [done|]. by field.
  - intros Hgt.
    apply (Qcmult_lt_compat_r _ _ (/ maximumDelegation ix)%Qc) in Hgt.
    + by rewrite Qcmult_inv_r in Hgt.
    + by apply Qcinv_pos.
Qed.

Lemma isOverDelegated_quotient_neg ix :
  (ownStake ix < 0)%Qc →
  isOverDelegated ix = true →
  (delegatedStake ix / maximumDelegation ix < 1)%Qc.
Proof.
  intros Hown. pose proof (maximumDelegation_neg ix Hown) as Hneg.
  assert (Hnz : maximumDelegation ix ≠ 0%Qc) by by apply Qclt_not_eq.
  unfold isOverDelegated. rewrite gt_true. intros Hgt.
  assert (Hpos : (0 < - maximumDelegation ix)%Qc) by by apply Qcopp_pos.
  assert (Hlt : (- delegatedStake ix < - maximumDelegation ix)%Qc).
  { apply (proj2 (Qclt_minus_iff _ _)).
    rewrite Qcopp_involutive, Qcplus_comm.
    by apply (proj1 (Qclt_minus_iff _ _)). }
  apply (Qcmult_lt_compat_r _ _ (/ - maximumDelegation ix)%Qc) in Hlt;
    [|by apply Qcinv_pos].
  rewrite Qcmult_inv_r in Hlt by by apply not_symmetry, Qclt_not_eq.
  replace (delegatedStake ix / maximumDelegation ix)%Qc
    with (- delegatedStake ix * / - maximumDelegation ix)%Qc; [done|].
  field. split; [done|]. by apply not_symmetry, Qclt_not_eq.
Qed.

(** C7 (amended).  [delegationRatio] never faults; it is 0 whenever
    [ownStake = 0], whatever the delegated stake, and otherwise
    [delegatedStake / maximumDelegation] as [BigDecimal.div] returns it: the
    exact quotient rounded to 34 significant digits, without clamping.  For a
    positive own stake the exact quotient exceeds 1 exactly when the indexer
    is over-delegated, and the ratio returned is at least 1 when the indexer
    is over-delegated and exceeds 1 only when it is; for a negative own stake
    the ratio of an over-delegated indexer is at most 1. *)
Theorem delegationRatio_unclamped (ix : t) :
  (ownStake ix = zeroBD → delegationRatio ix = Some zeroBD) ∧
  (ownStake ix ≠ zeroBD →
   maximumDelegation ix ≠ zeroBD ∧
   delegationRatio ix = BD.div (delegatedStake ix) (maximumDelegation ix) ∧
   delegationRatio ix
     = Some (BD.round (delegatedStake ix / maximumDelegation ix)%Qc)) ∧
  ((0 < ownStake ix)%Qc →
   ((1 < delegatedStake ix / maximumDelegation ix)%Qc
    ↔ isOverDelegated ix = true) ∧
   ∃ r, delegationRatio ix = Some r ∧
        (isOverDelegated ix = true → (1 ≤ r)%Qc) ∧
        ((1 < r)%Qc → isOverDelegated ix = true)) ∧
  ((ownStake ix < 0)%Qc →
   ∃ r, delegationRatio ix = Some r ∧
        (isOverDelegated ix = true → (r ≤ 1)%Qc)).
Proof.
  assert (Hzero : ownStake ix = zeroBD → delegationRatio ix = Some zeroBD).
  { intros Hown. rewrite delegationRatio_value.
    by rewrite (proj2 (equals_true _ _) Hown). }
  assert (Hnz : ownStake ix ≠ zeroBD →
    delegationRatio ix
      = Some (BD.round (delegatedStake ix / maximumDelegation ix)%Qc)).
  { intros Hown. rewrite delegationRatio_value.
    by rewrite (proj2 (equals_false _ _) Hown). }
  split; [exact Hzero|]. split; [|split].
  - intros Hown. split; [by apply maximumDelegation_nonzero|].
    split; [|by apply Hnz].
    unfold delegationRatio. by rewrite (proj2 (equals_false _ _) Hown).
  - intros Hpos. split; [by apply isOverDelegated_quotient_pos|].
    eexists. split; [by apply Hnz, not_symmetry, Qclt_not_eq|]. split.
    + intros Hover%isOverDelegated_quotient_pos; [|done].
      by apply round_ge_one, Qclt_le_weak.
    + intros Hgt. apply isOverDelegated_quotient_pos; [done|].
      apply Qcnot_le_lt. intros Hle%round_le_one.
      by apply (Qclt_not_le _ _ Hgt).
  - intros Hneg.
    eexists. split; [by apply Hnz, Qclt_not_eq|].
    intros Hover. by apply round_le_one, Qclt_le_weak,
      isOverDelegated_quotient_neg.
Qed.

(** *** Running a handler statement by statement *)

Lemma persists_step {A} (m : Method A) (k : A → Method unit)
    ix w a ix1 w1 (P : t → IndexerEntity.t → Prop) :
  m (ix, w) = Some (a, (ix1, w1)) →
  id ix1 = id ix →
  persists (k a) ix1 w1 P →
  persists (m ≫= k) ix w P.
Proof.
  intros Hm Hid (ix2 & w2 & Hrun & Hstored & HP).
  exists ix2, w2. split; [by erewrite run_bind by exact Hm|].
  split; [by rewrite <-Hid|done].
Qed.

Lemma persists_save ix w (P : t → IndexerEntity.t → Prop) :
  P ix (indexerEntity ix) → persists save ix w P.
Proof.
  intros HP. eexists _, _. split; [reflexivity|].
  split; [apply lookup_insert_eq|done].
Qed.

Lemma persists_mono (m : Method unit) ix w
    (P Q : t → IndexerEntity.t → Prop) :
  (∀ ix' e', P ix' e' → Q ix' e') → persists m ix w P → persists m ix w Q.
Proof. intros HPQ (ix' & w' & ? & ? & ?). exists ix', w'. eauto. Qed.


(** *** Rewards *)



(** *** Share price *)



(** *** Delegation parameters *)

Lemma persists_handleDelegationParametersUpdated ev ix w :
  persists (handleDelegationParametersUpdated ev) ix w
    (λ _ e',
       IndexerEntity.delegatorParameterCooldownBlock e'
       = if bool_decide (dpu_cooldownBlocks ev = 0) then None
         else Some (number (dpu_block ev) + dpu_cooldownBlocks ev)).
Proof.
  destruct ix as [e b sn ds os als].
  set (ix0 := mkIndexer e b sn ds os als).
  unfold handleDelegationParametersUpdated.
  do 5 (eapply persists_step; [reflexivity|reflexivity|state_simpl ix0]).
  match goal with
  | |- persists (onSnapshot ?op ≫= _) (mkIndexer ?e1 ?b1 ?s1 ?x ?y ?z) ?w1 _ =>
      destruct (run_onSnapshot op e1 b1 s1 x y z w1) as (sn' & st & Hs)
  end.
  eapply persists_step; [exact Hs|reflexivity|state_simpl ix0].
  destruct (bool_decide (dpu_cooldownBlocks ev = 0));
    (eapply persists_step; [reflexivity|reflexivity|state_simpl ix0]);
    by apply persists_save.
Qed.

(** C9.  On a delegation-parameters-updated event emitted at block [B]: with
    [cooldownBlocks = 0] the persisted [delegatorParameterCooldownBlock] is
    null; with [cooldownBlocks = N > 0] it is [B + N]. *)
Theorem handleDelegationParametersUpdated_cooldown
    (ev : DelegationParametersUpdated) (ix : t) (w : World) :
  (dpu_cooldownBlocks ev = 0 →
   persists (handleDelegationParametersUpdated ev) ix w
     (λ _ e', IndexerEntity.delegatorParameterCooldownBlock e' = None)) ∧
  (0 < dpu_cooldownBlocks ev →
   persists (handleDelegationParametersUpdated ev) ix w
     (λ _ e', IndexerEntity.delegatorParameterCooldownBlock e'
              = Some (number (dpu_block ev) + dpu_cooldownBlocks ev))).
Proof.
  split; intros Hcool;
    (eapply persists_mono;
       [|apply persists_handleDelegationParametersUpdated]);
    intros _ e' ->.
  - by rewrite bool_decide_eq_true_2.
  - by rewrite bool_decide_eq_false_2 by lia.
Qed.

(** *** Own stake over a sequence of events *)

Lemma constructor_id a b w : store_wf w → id (constructor a b w) = toHex a.
Proof.
  intros Hwf. unfold constructor, id. cbn.
  destruct (indexers w !! toHex a) as [e|] eqn:He; [by apply Hwf|done].
Qed.






End Facts.

(** The theorems above at concrete inputs, and the inputs at which rounding
    shows. *)
Section Witnesses.
Import Example Events MoreExamples.

Ltac decimal_neq :=
  let Heq := fresh in
  intros Heq; apply (f_equal this) in Heq; vm_compute in Heq; discriminate Heq.

Ltac decimal_eq := apply Qc_is_canon; vm_compute; reflexivity.






Lemma allocationRatio_capacity_witness :
  ownStake (constructor "0xaa" block1 emptyWorld) = zeroBD ∧
  delegatedStake (constructor "0xaa" block1 emptyWorld) = zeroBD ∧
  allocationRatio (constructor "0xaa" block1 emptyWorld) = Some zeroBD.
Proof.
  split; [reflexivity|]. split; [reflexivity|].
  exact (proj2 (proj2 (allocationRatio_capacity
                         (constructor "0xaa" block1 emptyWorld)))
           eq_refl eq_refl).
Defined.

Lemma delegationRatio_unclamped_witness :
  (ownStake (constructor "0xaa" block1 emptyWorld) = zeroBD ∧
   delegationRatio (constructor "0xaa" block1 emptyWorld) = Some zeroBD) ∧
  ((0 < ownStake (constructor "0xbb" block1 worldOver))%Qc ∧
   isOverDelegated (constructor "0xbb" block1 worldOver) = true ∧
   delegationRatio (constructor "0xbb" block1 worldOver)
   = Some (BD.ofZ 5 / BD.ofZ 4)%Qc ∧
   (1 < BD.ofZ 5 / BD.ofZ 4)%Qc ∧
   ((1 < delegatedStake (constructor "0xbb" block1 worldOver)
         / maximumDelegation (constructor "0xbb" block1 worldOver))%Qc
    ↔ isOverDelegated (constructor "0xbb" block1 worldOver) = true) ∧
   ∃ r, delegationRatio (constructor "0xbb" block1 worldOver) = Some r ∧
        (isOverDelegated (constructor "0xbb" block1 worldOver) = true
         → (1 ≤ r)%Qc) ∧
        ((1 < r)%Qc
         → isOverDelegated (constructor "0xbb" block1 worldOver) = true)) ∧
  ((ownStake (constructor "0xdd" block1 worldOverdrawn) < 0)%Qc ∧
   ∃ r, delegationRatio (constructor "0xdd" block1 worldOverdrawn) = Some r ∧
        (isOverDelegated (constructor "0xdd" block1 worldOverdrawn) = true
         → (r ≤ 1)%Qc)).
Proof.
  assert (Hpos : (0 < ownStake (constructor "0xbb" block1 worldOver))%Qc)
    by (vm_compute; reflexivity).
  assert (Hnz : ownStake (constructor "0xbb" block1 worldOver) ≠ zeroBD)
    by decimal_neq.
  assert (Hneg : (ownStake (constructor "0xdd" block1 worldOverdrawn) < 0)%Qc)
    by (vm_compute; reflexivity).
  split; [|split].
  - split; [reflexivity|].
    exact (proj1 (delegationRatio_unclamped
                    (constructor "0xaa" block1 emptyWorld)) eq_refl).
  - split; [exact Hpos|]. split; [by vm_compute|]. split.
    { rewrite (proj2 (proj2 (proj1 (proj2 (delegationRatio_unclamped
                 (constructor "0xbb" block1 worldOver))) Hnz))).
      f_equal. decimal_eq. }
    split; [by vm_compute|].
    exact (proj1 (proj2 (proj2 (delegationRatio_unclamped
                                  (constructor "0xbb" block1 worldOver))))
             Hpos).
  - split; [exact Hneg|].
    exact (proj2 (proj2 (proj2 (delegationRatio_unclamped
                                  (constructor "0xdd" block1 worldOverdrawn))))
             Hneg).
Defined.

(** C7, the claim as stated fails.  With own stake 6 the maximum delegation
    is 96; a delegated stake of [96 + 10^-32] makes the indexer
    over-delegated, while the quotient [1 + 10^-32 / 96] is 1 to 34
    significant digits: the ratio returned is 1 and does not exceed 1.  With
    the own stake -1 that locks beyond the deposits leave, a delegated stake
    of 5 makes the indexer over-delegated with a negative ratio. *)
Lemma delegationRatio_unclamped_brink :
  (ownStake (constructor "0xcc" block1 worldBrink) ≠ zeroBD ∧
   isOverDelegated (constructor "0xcc" block1 worldBrink) = true ∧
   delegationRatio (constructor "0xcc" block1 worldBrink) = Some (BD.ofZ 1)) ∧
  (ownStake (constructor "0xdd" block1 worldOverdrawn) ≠ zeroBD ∧
   isOverDelegated (constructor "0xdd" block1 worldOverdrawn) = true ∧
   delegationRatio (constructor "0xdd" block1 worldOverdrawn)
   = Some (- (BD.ofZ 5 / BD.ofZ 16))%Qc).
Proof.
  assert (Hbrink : ownStake (constructor "0xcc" block1 worldBrink) ≠ zeroBD)
    by decimal_neq.
  assert (Hdrawn : ownStake (constructor "0xdd" block1 worldOverdrawn) ≠ zeroBD)
    by decimal_neq.
  split; (split; [done|]); (split; [by vm_compute|]);
    rewrite delegationRatio_value;
    rewrite (proj2 (equals_false _ _)) by done;
    f_equal; decimal_eq.
Qed.



Lemma handleDelegationParametersUpdated_cooldown_witness :
  (dpu_cooldownBlocks (parameters 0) = 0 ∧
   persists (handleDelegationParametersUpdated (parameters 0))
     (constructor "0xaa" block1 world400) world400
     (λ _ e', IndexerEntity.delegatorParameterCooldownBlock e' = None)) ∧
  (0 < dpu_cooldownBlocks (parameters 25) ∧
   persists (handleDelegationParametersUpdated (parameters 25))
     (constructor "0xaa" block1 world400) world400
     (λ _ e', IndexerEntity.delegatorParameterCooldownBlock e'
              = Some (number (dpu_block (parameters 25))
                      + dpu_cooldownBlocks (parameters 25)))).
Proof.
  split; (split; [reflexivity|]).
  - exact (proj1 (handleDelegationParametersUpdated_cooldown
                    (parameters 0)
                    (constructor "0xaa" block1 world400) world400) eq_refl).
  - exact (proj2 (handleDelegationParametersUpdated_cooldown
                    (parameters 25)
                    (constructor "0xaa" block1 world400) world400) eq_refl).
Defined.

End Witnesses.

(** Scenarios of the specification, run on the concrete ledger. *)
Section Scenarios.
Import Example.

(** Own stake 100 (one deposit) and no delegation: a reward of 50 leaves
    own stake, delegated stake and pool shares unchanged. *)
Example rewards_without_delegation :
  observe (applyOwnStakeEvents [deposit 100] emptyWorld)
  = Some (100%Q, 0%Q, 0%Q, false, Some 1) ∧
  observe (w ← applyOwnStakeEvents [deposit 100] emptyWorld;
           deliver "0xaa" block1 (handleRewardsAssigned (rewards 50)) w)
  = Some (100%Q, 0%Q, 0%Q, false, Some 1).
Proof. vm_compute. split; reflexivity. Qed.

(** Delegated stake 400 in 400 shares, cut 0.2: a reward of 100 raises the
    delegated stake to 480 and keeps the 400 shares. *)
Example rewards_compound_into_pool :
  observe (deliver "0xaa" block1 (handleRewardsAssigned (rewards 100)) world400)
  = Some (100%Q, 480%Q, 1600%Q, false, Some 400).
Proof. vm_compute. reflexivity. Qed.

(** A deposit of 100 followed by a lock of 30, each on its own object: the
    own stake is 70, and the stored [maximumDelegation] is the one of the own
    stake read at the second construction. *)
Example deposit_then_lock :
  observe (applyOwnStakeEvents [deposit 100; lock 30] emptyWorld)
  = Some (70%Q, 0%Q, 1600%Q, false, Some 1).
Proof. vm_compute. reflexivity. Qed.

End Scenarios.
End IndexerFacts.

(** ** Properties of the delegated-stake identity *)

Module DelegatedStakeFacts.
Import DelegatedStake.

(** C10.  The record of an (indexer, delegator) pair is kept under the id
    [indexer.id ++ "-" ++ delegator.id]; its [createdAtTimestamp] is written
    only when no record exists under that id, and a later construction loads
    the record unchanged; [isCreatedThisBlock] is true exactly when the
    stored [createdAtTimestamp] is the timestamp of the block being
    processed, which is the case for a record created by this
    construction. *)
Theorem delegatedStake_identity
    (ie : IndexerEntity.t) (de : DelegatorEntity) (b b' : Block)
    (store : gmap string DelegatedStakeEntity) :
  let key := IndexerEntity.id ie +:+ "-" +:+ delegator_id de in
  let r := constructor ie de b store in
  let r' := constructor ie de b' r.2 in
  id r.1 = key ∧
  r.2 !! key = Some (delegatedStakeEntity r.1) ∧
  match store !! key with
  | None =>
      entity_id (delegatedStakeEntity r.1) = key ∧
      createdAtTimestamp (delegatedStakeEntity r.1) = timestamp b ∧
      isCreatedThisBlock r.1 = true
  | Some e =>
      delegatedStakeEntity r.1 = e ∧
      r.2 = store ∧
      isCreatedThisBlock r.1
        = bool_decide (createdAtTimestamp e = timestamp b)
  end ∧
  delegatedStakeEntity r'.1 = delegatedStakeEntity r.1 ∧
  r'.2 = r.2 ∧
  (isCreatedThisBlock r.1 = true
   ↔ createdAtTimestamp (delegatedStakeEntity r.1) = timestamp b) ∧
  (isCreatedThisBlock r'.1 = true
   ↔ createdAtTimestamp (delegatedStakeEntity r.1) = timestamp b').
Proof.
  intros key r r'.
  assert (Hstored : r.2 !! key = Some (delegatedStakeEntity r.1)).
  { unfold r, constructor, _initializeDelegatedStakeEntity.
    change (id_of ie de) with key.
    destruct (store !! key) as [e|] eqn:He; cbn; [done|].
    apply lookup_insert_eq. }
  assert (Hagain : delegatedStakeEntity r'.1 = delegatedStakeEntity r.1
                   ∧ r'.2 = r.2).
  { unfold r', constructor, _initializeDelegatedStakeEntity.
    change (id_of ie de) with key. by rewrite Hstored. }
  split; [done|]. split; [exact Hstored|]. split.
  - unfold r, constructor, _initializeDelegatedStakeEntity, isCreatedThisBlock.
    change (id_of ie de) with key.
    destruct (store !! key) as [e|] eqn:He; cbn; [done|].
    by rewrite bool_decide_eq_true_2.
  - destruct Hagain as [Hentity Hstore].
    split; [exact Hentity|]. split; [exact Hstore|].
    unfold isCreatedThisBlock. rewrite Hentity.
    split; apply bool_decide_eq_true.
Qed.

End DelegatedStakeFacts.

(** ** Further properties of the class [Indexer] *)

Module IndexerHandlers.
Import Indexer Events BDFacts IndexerFacts.
Section Handlers.
Context `{Conversions} `{SnapshotLedger}.

Ltac simpl_state :=
  unfold set_indexerEntity, set_snapshot, set_indexers, set_snapshots,
         set_parameterUpdates;
  cbn [indexerEntity currentBlock _snapshot _delegatedStake _ownStake
       _allocatedStake indexers snapshots parameterUpdates fst snd].

Ltac run_step :=
  first [ erewrite run_bind by reflexivity
        | erewrite run_bind by apply run_snapshot_cached
        | erewrite run_bind by (apply run_getM; eassumption)
        | erewrite run_bind by eassumption ];
  simpl_state.

(** *** The snapshot getter *)

(** X1.  The snapshot is created at most once per object: the getter
    [snapshot] always returns, leaves the cached stakes, the entity and the
    indexer table alone, and after it the same snapshot is cached, so that a
    second read returns it again and changes nothing; a cached snapshot is
    returned without touching the ledger. *)
Theorem snapshot_memoized (ix : t) (w : World) :
  ∃ sn ix1 w1,
    snapshot (ix, w) = Some (sn, (ix1, w1)) ∧
    _snapshot ix1 = Some sn ∧
    sameObject ix ix1 ∧
    indexerEntity ix1 = indexerEntity ix ∧
    indexers w1 = indexers w ∧
    parameterUpdates w1 = parameterUpdates w ∧
    snapshot (ix1, w1) = Some (sn, (ix1, w1)) ∧
    (∀ sn0, _snapshot ix = Some sn0 → sn = sn0 ∧ ix1 = ix ∧ w1 = w).
Proof.
  destruct ix as [e b [sn0|] ds os als].
  - exists sn0, (mkIndexer e b (Some sn0) ds os als), w.
    unfold sameObject. cbn. repeat split; congruence.
  - eexists _, _, _. split; [reflexivity|].
    unfold sameObject. cbn. by repeat split.
Qed.

(** *** The reward rate *)

(** X2.  [monthlyDelegatorRewardRate] never divides by zero: with a zero
    delegated stake it returns 0 and leaves the object and the world as they
    are, creating no snapshot; otherwise it returns the previous month's
    rewards of the object's snapshot divided by the delegated stake, the
    quotient [BigDecimal.div] returns: rounded to 34 significant digits. *)
Theorem monthlyDelegatorRewardRate_guarded (ix : t) (w : World) :
  (delegatedStake ix = zeroBD →
   monthlyDelegatorRewardRate (ix, w) = Some (zeroBD, (ix, w))) ∧
  (delegatedStake ix ≠ zeroBD →
   ∃ sn ix1 w1,
     snapshot (ix, w) = Some (sn, (ix1, w1)) ∧
     BD.div (snapshot_previousMonthRewards sn (snapshots w1)) (delegatedStake ix)
     = Some (BD.round (snapshot_previousMonthRewards sn (snapshots w1)
                       / delegatedStake ix)%Qc) ∧
     monthlyDelegatorRewardRate (ix, w)
     = Some (BD.round (snapshot_previousMonthRewards sn (snapshots w1)
                       / delegatedStake ix)%Qc, (ix1, w1))).
Proof.
  split; intros Hd; unfold monthlyDelegatorRewardRate;
    erewrite run_bind by reflexivity; cbn [fst snd].
  - by rewrite (proj2 (equals_true _ _) Hd).
  - rewrite (proj2 (equals_false _ _) Hd).
    assert (Hsn : ∃ r, snapshot (ix, w) = Some r).
    { unfold snapshot. cbn [fst]. destruct (_snapshot ix); by eexists. }
    destruct Hsn as [[sn [ix1 w1]] Hsn].
    exists sn, ix1, w1. split; [done|]. split; [by apply div_nonzero|].
    erewrite run_bind by exact Hsn.
    unfold act, lift. cbn [fst snd]. by rewrite div_nonzero.
Qed.

(** *** The allocation capacity *)

(** X3.  The capacity that [allocationRatio] divides by counts the delegated
    stake only up to the maximum delegation: it is the own stake plus the
    smaller of the delegated stake and the maximum delegation, the sum as
    [BigDecimal.plus] returns it. *)
Theorem allocationCapacity_capped (ix : t) :
  ∃ counted,
    allocationCapacity ix = BD.plus (ownStake ix) counted ∧
    (counted ≤ delegatedStake ix)%Qc ∧
    (counted ≤ maximumDelegation ix)%Qc ∧
    (counted = delegatedStake ix ∨ counted = maximumDelegation ix).
Proof.
  unfold allocationCapacity, isOverDelegated, BD.gt.
  case_bool_decide as Hover.
  - exists (maximumDelegation ix). split; [done|].
    split; [by apply Qclt_le_weak|]. split; [done|by right].
  - exists (delegatedStake ix). split; [done|]. split; [done|].
    split; [by apply Qcnot_lt_le|by left].
Qed.

Lemma overDelegated_capacity_nonzero ix :
  ownStake ix ≠ zeroBD →
  BD.plus (ownStake ix) (maximumDelegation ix) ≠ zeroBD.
Proof.
  intros Hown Hcap. unfold BD.plus in Hcap.
  apply (proj1 (round_eq_0 _)) in Hcap.
  destruct (Qc_trichotomy (ownStake ix)) as [Hneg|[?|Hpos]]; [|done|].
  - pose proof (maximumDelegation_neg ix Hneg) as Hmax.
    assert (Hlt : (ownStake ix + maximumDelegation ix < 0)%Qc)
      by by apply Qcplus_neg_neg.
    rewrite Hcap in Hlt. by apply Qclt_not_eq in Hlt.
  - pose proof (maximumDelegation_pos ix Hpos) as Hmax.
    assert (Hlt : (0 < ownStake ix + maximumDelegation ix)%Qc)
      by by apply Qcplus_pos_pos.
    rewrite Hcap in Hlt. by apply Qclt_not_eq in Hlt.
Qed.

(** X4.  For an over-delegated indexer the allocation ratio does not depend
    on the delegated stake: it is 0 when the own stake is 0 and otherwise the
    allocated stake divided by the own stake plus 16 times the own stake,
    sum and quotient as the [BigDecimal] operations return them; that
    capacity is not zero. *)
Theorem allocationRatio_over_delegated (ix : t) :
  isOverDelegated ix = true →
  let capacity := BD.plus (ownStake ix) (BD.times (ownStake ix) sixteenBD) in
  (ownStake ix ≠ zeroBD → capacity ≠ zeroBD) ∧
  allocationRatio ix
  = Some (if decide (ownStake ix = zeroBD) then zeroBD
          else BD.round (allocatedStake ix / capacity)%Qc).
Proof.
  intros Hover capacity. unfold capacity. fold (maximumDelegation ix).
  split; [apply overDelegated_capacity_nonzero|].
  rewrite allocationRatio_value.
  unfold allocationCapacity. rewrite Hover.
  unfold BD.equals. rewrite bool_decide_decide.
  destruct (decide (ownStake ix = zeroBD)) as [Hown|Hown].
  - rewrite decide_True; [done|].
    unfold maximumDelegation. rewrite Hown, times_zero_l.
    apply plus_zero_zero.
  - rewrite decide_False; [done|]. by apply overDelegated_capacity_nonzero.
Qed.

(** *** What the mutators write and what they leave alone *)

Ltac fold_getters ix0 :=
  repeat match goal with
  | |- context [allocationRatio ?i] =>
      progress change (allocationRatio i) with (allocationRatio ix0)
  | |- context [delegationRatio ?i] =>
      progress change (delegationRatio i) with (delegationRatio ix0)
  | |- context [isOverDelegated ?i] =>
      progress change (isOverDelegated i) with (isOverDelegated ix0)
  | |- context [maximumDelegation ?i] =>
      progress change (maximumDelegation i) with (maximumDelegation ix0)
  | |- context [ownStake ?i] =>
      progress change (ownStake i) with (ownStake ix0)
  | |- context [delegatedStake ?i] =>
      progress change (delegatedStake i) with (delegatedStake ix0)
  | |- context [allocatedStake ?i] =>
      progress change (allocatedStake i) with (allocatedStake ix0)
  | |- context [delegationPoolShares ?i] =>
      progress change (delegationPoolShares i) with (delegationPoolShares ix0)
  end.

Lemma run_onSnapshot_exact op ix w :
  onSnapshot op (ix, w)
  = Some (tt,
      let r := op (currentSnapshot ix w).1 (currentSnapshot ix w).2 in
      (set_snapshot (Some r.1) ix, set_snapshots r.2 w)).
Proof.
  unfold onSnapshot, currentSnapshot.
  destruct ix as [e b [sn|] ds os als]; cbn [_snapshot].
  - by erewrite run_bind by apply run_snapshot_cached.
  - by erewrite run_bind by reflexivity.
Qed.

Lemma allocationRatio_default ix :
  allocationRatio ix = Some (default zeroBD (allocationRatio ix)).
Proof. by rewrite allocationRatio_value. Qed.

Lemma delegationRatio_default ix :
  delegationRatio ix = Some (default zeroBD (delegationRatio ix)).
Proof. by rewrite delegationRatio_value. Qed.

(** Conclude on the final [save]: the entity is stored under its id. *)
Ltac saved :=
  unfold save, id, ownStake, delegatedStake, allocatedStake, set_indexers;
  cbn [fst snd indexerEntity indexers];
  simpl (IndexerEntity.id _);
  reflexivity.

(** Run the statements of a method body one after the other. *)
Ltac run ix0 :=
  repeat (first [ erewrite run_bind by reflexivity
                | erewrite run_bind by apply run_snapshot_cached
                | erewrite run_bind by apply run_onSnapshot_exact
                | erewrite run_bind by (apply run_getM; eassumption)
                | erewrite run_bind by eassumption ];
          simpl_state; fold_getters ix0).

Lemma run_updateOwnStake_exact d ix w :
  updateOwnStake d (ix, w)
  = Some (tt,
      let r := snapshot_updateOwnStake d
                 (currentSnapshot ix w).1 (currentSnapshot ix w).2 in
      let e' :=
        IndexerEntity.set_delegationRatio (default zeroBD (delegationRatio ix))
          (IndexerEntity.set_allocationRatio
             (default zeroBD (allocationRatio ix))
             (IndexerEntity.set_isOverDelegated (isOverDelegated ix)
                (IndexerEntity.set_maximumDelegation (maximumDelegation ix)
                   (IndexerEntity.set_ownStake (BD.plus (ownStake ix) d)
                      (IndexerEntity.set_lastSnapshot
                         (Some (snapshot_id r.1)) (indexerEntity ix)))))) in
      (mkIndexer e' (currentBlock ix) (Some r.1)
         (_delegatedStake ix) (_ownStake ix) (_allocatedStake ix),
       mkWorld (<[id ix := e']> (indexers w)) r.2 (parameterUpdates w))).
Proof.
  pose proof (allocationRatio_default ix) as Har.
  pose proof (delegationRatio_default ix) as Hdr.
  destruct ix as [e b sn ds os als].
  set (ix0 := mkIndexer e b sn ds os als) in *.
  unfold updateOwnStake. run ix0. saved.
Qed.

Lemma run_updateAllocatedStake_exact d ix w :
  updateAllocatedStake d (ix, w)
  = Some (tt,
      let e' :=
        IndexerEntity.set_allocationRatio (default zeroBD (allocationRatio ix))
          (IndexerEntity.set_allocatedStake (BD.plus (allocatedStake ix) d)
             (indexerEntity ix)) in
      (mkIndexer e' (currentBlock ix) (_snapshot ix)
         (_delegatedStake ix) (_ownStake ix) (_allocatedStake ix),
       mkWorld (<[id ix := e']> (indexers w))
               (snapshots w) (parameterUpdates w))).
Proof.
  pose proof (allocationRatio_default ix) as Har.
  destruct ix as [e b sn ds os als].
  set (ix0 := mkIndexer e b sn ds os als) in *.
  unfold updateAllocatedStake. run ix0. saved.
Qed.

Lemma run_monthlyDelegatorRewardRate_exact e b sn ds os als w :
  monthlyDelegatorRewardRate (mkIndexer e b (Some sn) ds os als, w)
  = Some (if BD.equals ds zeroBD then zeroBD
          else BD.round (snapshot_previousMonthRewards sn (snapshots w) / ds)%Qc,
          (mkIndexer e b (Some sn) ds os als, w)).
Proof.
  unfold monthlyDelegatorRewardRate.
  erewrite run_bind by reflexivity.
  cbn [fst snd]. unfold delegatedStake. cbn [_delegatedStake].
  destruct (BD.equals ds zeroBD) eqn:Hd; [done|].
  erewrite run_bind by apply run_snapshot_cached.
  unfold act, lift. cbn [fst snd].
  by rewrite div_nonzero by by apply equals_false.
Qed.

Lemma run_updateDelegatedStake_exact d sh ix w :
  updateDelegatedStake d sh (ix, w)
  = Some (tt,
      let r := snapshot_updateDelegatedStake d
                 (currentSnapshot ix w).1 (currentSnapshot ix w).2 in
      let e' :=
        IndexerEntity.set_monthlyDelegatorRewardRate
          (if BD.equals (delegatedStake ix) zeroBD then zeroBD
           else BD.round (snapshot_previousMonthRewards r.1 r.2
                          / delegatedStake ix)%Qc)
          (IndexerEntity.set_delegationRatio
             (default zeroBD (delegationRatio ix))
             (IndexerEntity.set_allocationRatio
                (default zeroBD (allocationRatio ix))
                (IndexerEntity.set_isOverDelegated (isOverDelegated ix)
                   (IndexerEntity.set_delegationPoolShares
                      (Some (delegationPoolShares ix + sh))
                      (IndexerEntity.set_delegatedStake
                         (BD.plus (delegatedStake ix) d)
                         (IndexerEntity.set_lastSnapshot
                            (Some (snapshot_id r.1))
                            (indexerEntity ix))))))) in
      (mkIndexer e' (currentBlock ix) (Some r.1)
         (_delegatedStake ix) (_ownStake ix) (_allocatedStake ix),
       mkWorld (<[id ix := e']> (indexers w)) r.2 (parameterUpdates w))).
Proof.
  pose proof (allocationRatio_default ix) as Har.
  pose proof (delegationRatio_default ix) as Hdr.
  destruct ix as [e b sn ds os als].
  set (ix0 := mkIndexer e b sn ds os als) in *.
  unfold updateDelegatedStake. run ix0.
  erewrite run_bind by apply run_monthlyDelegatorRewardRate_exact.
  run ix0. saved.
Qed.

Lemma currentSnapshot_cached e b sn ds os als w :
  currentSnapshot (mkIndexer e b (Some sn) ds os als) w = (sn, snapshots w).
Proof. reflexivity. Qed.

Lemma run_handleDelegationParametersUpdated_exact ev ix w :
  handleDelegationParametersUpdated ev (ix, w)
  = Some (tt,
      let ratio := feeCutToDecimalRatio (dpu_indexingRewardCut ev) in
      let queryRatio := feeCutToDecimalRatio (dpu_queryFeeCut ev) in
      let e1 :=
        IndexerEntity.set_queryFeeCutRatio (Some queryRatio)
          (IndexerEntity.set_indexingRewardCutRatio (Some ratio)
             (indexerEntity ix)) in
      let log :=
        parameterUpdates w
        ++ [mkParameterUpdate (id ix) (number (currentBlock ix))
              ratio queryRatio] in
      let r :=
        snapshot_incrementParametersChangesCount
          (currentSnapshot (set_indexerEntity e1 ix) w).1
          (currentSnapshot (set_indexerEntity e1 ix) w).2 in
      let e' :=
        IndexerEntity.set_delegatorParameterCooldownBlock
          (if bool_decide (dpu_cooldownBlocks ev = 0) then None
           else Some (number (dpu_block ev) + dpu_cooldownBlocks ev)) e1 in
      (mkIndexer e' (currentBlock ix) (Some r.1)
         (_delegatedStake ix) (_ownStake ix) (_allocatedStake ix),
       mkWorld (<[id ix := e']> (indexers w)) r.2 log)).
Proof.
  destruct ix as [e b sn ds os als].
  set (ix0 := mkIndexer e b sn ds os als) in *.
  unfold handleDelegationParametersUpdated.
  do 5 (erewrite run_bind by reflexivity; simpl_state).
  erewrite run_bind by apply run_onSnapshot_exact. cbn zeta. simpl_state.
  destruct (bool_decide (dpu_cooldownBlocks ev = 0));
    (erewrite run_bind by reflexivity; simpl_state); reflexivity.
Qed.

Lemma run_handleRebateClaimed_exact ev ix w :
  handleRebateClaimed ev (ix, w)
  = Some (tt,
      let fees := tokenAmountToDecimal (rc_delegationFees ev) in
      let r := snapshot_updateDelegatedStake fees
                 (currentSnapshot ix w).1 (currentSnapshot ix w).2 in
      let r2 := snapshot_addDelegationPoolIndexingRewards fees r.1 r.2 in
      let e' :=
        IndexerEntity.set_monthlyDelegatorRewardRate
          (if BD.equals (delegatedStake ix) zeroBD then zeroBD
           else BD.round (snapshot_previousMonthRewards r.1 r.2
                          / delegatedStake ix)%Qc)
          (IndexerEntity.set_delegationRatio
             (default zeroBD (delegationRatio ix))
             (IndexerEntity.set_allocationRatio
                (default zeroBD (allocationRatio ix))
                (IndexerEntity.set_isOverDelegated (isOverDelegated ix)
                   (IndexerEntity.set_delegationPoolShares
                      (Some (delegationPoolShares ix + zeroBI))
                      (IndexerEntity.set_delegatedStake
                         (BD.plus (delegatedStake ix) fees)
                         (IndexerEntity.set_lastSnapshot
                            (Some (snapshot_id r.1))
                            (indexerEntity ix))))))) in
      (mkIndexer e' (currentBlock ix) (Some r2.1)
         (_delegatedStake ix) (_ownStake ix) (_allocatedStake ix),
       mkWorld (<[id ix := e']> (indexers w)) r2.2 (parameterUpdates w))).
Proof.
  unfold handleRebateClaimed.
  erewrite run_bind by apply run_updateDelegatedStake_exact. cbn zeta.
  by rewrite run_onSnapshot_exact.
Qed.

Lemma rewardsSplit_cases ev ix w :
  rewardsSplit ev (ix, w)
  = let R := tokenAmountToDecimal (ra_amount ev) in
    if BD.equals (delegatedStake ix) zeroBD
    then Some ((R, zeroBD), (ix, w))
    else match IndexerEntity.indexingRewardCutRatio (indexerEntity ix) with
         | Some cut =>
             Some ((BD.times R cut, BD.minus R (BD.times R cut)), (ix, w))
         | None => None
         end.
Proof.
  unfold rewardsSplit. erewrite run_bind by reflexivity. cbn [fst snd].
  destruct (BD.equals (delegatedStake ix) zeroBD); [done|].
  destruct (IndexerEntity.indexingRewardCutRatio (indexerEntity ix))
    as [cut|] eqn:Hcut.
  - by erewrite run_bind by (apply run_getM; exact Hcut).
  - unfold mbind, Method_bind, getM, lift. cbn [fst]. by rewrite Hcut.
Qed.

Lemma run_handleRewardsAssigned_exact ev ix w shares :
  rewardsSplit ev (ix, w) = Some (shares, (ix, w)) →
  handleRewardsAssigned ev (ix, w)
  = Some (tt,
      let ra := snapshot_addDelegationPoolIndexingRewards shares.2
                  (currentSnapshot ix w).1 (currentSnapshot ix w).2 in
      let r := snapshot_updateDelegatedStake shares.2 ra.1 ra.2 in
      let e' :=
        IndexerEntity.set_monthlyDelegatorRewardRate
          (if BD.equals (delegatedStake ix) zeroBD then zeroBD
           else BD.round (snapshot_previousMonthRewards r.1 r.2
                          / delegatedStake ix)%Qc)
          (IndexerEntity.set_delegationRatio
             (default zeroBD (delegationRatio ix))
             (IndexerEntity.set_allocationRatio
                (default zeroBD (allocationRatio ix))
                (IndexerEntity.set_isOverDelegated (isOverDelegated ix)
                   (IndexerEntity.set_delegationPoolShares
                      (Some (delegationPoolShares ix + zeroBI))
                      (IndexerEntity.set_delegatedStake
                         (BD.plus (delegatedStake ix) shares.2)
                         (IndexerEntity.set_lastSnapshot
                            (Some (snapshot_id r.1))
                            (indexerEntity ix))))))) in
      (mkIndexer e' (currentBlock ix) (Some r.1)
         (_delegatedStake ix) (_ownStake ix) (_allocatedStake ix),
       mkWorld (<[id ix := e']> (indexers w)) r.2 (parameterUpdates w))).
Proof.
  intros Hsplit. unfold handleRewardsAssigned.
  erewrite run_bind by exact Hsplit. cbn zeta.
  erewrite run_bind by apply run_onSnapshot_exact. cbn zeta.
  by rewrite run_updateDelegatedStake_exact.
Qed.

Lemma handleRewardsAssigned_fault ev ix w :
  rewardsSplit ev (ix, w) = None → handleRewardsAssigned ev (ix, w) = None.
Proof.
  intros Hsplit. unfold handleRewardsAssigned, mbind, Method_bind.
  by rewrite Hsplit.
Qed.

(** X5.  [updateOwnStake] returns; it records the delta once in the object's
    snapshot, and persists the object's entity with at most [lastSnapshot],
    [ownStake], [maximumDelegation], [isOverDelegated], [allocationRatio] and
    [delegationRatio] replaced, the four derived fields being those of the
    stakes cached at construction; entities of other ids and the parameter
    update log are untouched. *)
Theorem updateOwnStake_writes (d : BigDecimal) (ix : t) (w : World) :
  returns (updateOwnStake d) ix w
    (λ ix' w',
       let e := indexerEntity ix in
       let e' := indexerEntity ix' in
       let r := snapshot_updateOwnStake d
                  (currentSnapshot ix w).1 (currentSnapshot ix w).2 in
       indexers w' = <[id ix := e']> (indexers w) ∧
       parameterUpdates w' = parameterUpdates w ∧
       _snapshot ix' = Some r.1 ∧ snapshots w' = r.2 ∧
       sameObject ix ix' ∧
       e' = IndexerEntity.set_delegationRatio (IndexerEntity.delegationRatio e')
              (IndexerEntity.set_allocationRatio
                 (IndexerEntity.allocationRatio e')
                 (IndexerEntity.set_isOverDelegated (isOverDelegated ix)
                    (IndexerEntity.set_maximumDelegation (maximumDelegation ix)
                       (IndexerEntity.set_ownStake (BD.plus (ownStake ix) d)
                          (IndexerEntity.set_lastSnapshot
                             (Some (snapshot_id r.1)) e))))) ∧
       Some (IndexerEntity.allocationRatio e') = allocationRatio ix ∧
       Some (IndexerEntity.delegationRatio e') = delegationRatio ix).
Proof.
  eexists _, _. split; [apply run_updateOwnStake_exact|]. cbn zeta.
  unfold sameObject. cbn.
  rewrite <-allocationRatio_default, <-delegationRatio_default.
  by repeat split.
Qed.

(** X6.  [updateDelegatedStake] returns; it records the stake delta once in
    the object's snapshot, and persists the object's entity with at most
    [lastSnapshot], [delegatedStake], [delegationPoolShares],
    [isOverDelegated], the two ratios and [monthlyDelegatorRewardRate]
    replaced.  The stored pool shares are never null afterwards (a null
    value counts as 0); [maximumDelegation] is not rewritten; the reward rate
    is 0 when the delegated stake cached at construction is 0, and otherwise
    the previous month's rewards divided by that cached stake, the quotient
    rounded to 34 significant digits. *)
Theorem updateDelegatedStake_writes
    (d : BigDecimal) (sh : BigInt) (ix : t) (w : World) :
  returns (updateDelegatedStake d sh) ix w
    (λ ix' w',
       let e := indexerEntity ix in
       let e' := indexerEntity ix' in
       let r := snapshot_updateDelegatedStake d
                  (currentSnapshot ix w).1 (currentSnapshot ix w).2 in
       indexers w' = <[id ix := e']> (indexers w) ∧
       parameterUpdates w' = parameterUpdates w ∧
       _snapshot ix' = Some r.1 ∧ snapshots w' = r.2 ∧
       sameObject ix ix' ∧
       e' = IndexerEntity.set_monthlyDelegatorRewardRate
              (if decide (delegatedStake ix = zeroBD) then zeroBD
               else BD.round (snapshot_previousMonthRewards r.1 r.2
                              / delegatedStake ix)%Qc)
              (IndexerEntity.set_delegationRatio
                 (IndexerEntity.delegationRatio e')
                 (IndexerEntity.set_allocationRatio
                    (IndexerEntity.allocationRatio e')
                    (IndexerEntity.set_isOverDelegated (isOverDelegated ix)
                       (IndexerEntity.set_delegationPoolShares
                          (Some (default zeroBI
                                   (IndexerEntity.delegationPoolShares e) + sh))
                          (IndexerEntity.set_delegatedStake
                             (BD.plus (delegatedStake ix) d)
                             (IndexerEntity.set_lastSnapshot
                                (Some (snapshot_id r.1)) e)))))) ∧
       Some (IndexerEntity.allocationRatio e') = allocationRatio ix ∧
       Some (IndexerEntity.delegationRatio e') = delegationRatio ix ∧
       IndexerEntity.maximumDelegation e' = IndexerEntity.maximumDelegation e).
Proof.
  eexists _, _. split; [apply run_updateDelegatedStake_exact|]. cbn zeta.
  unfold sameObject. cbn.
  rewrite <-allocationRatio_default, <-delegationRatio_default.
  unfold BD.equals. rewrite bool_decide_decide.
  assert (Hshares : delegationPoolShares ix
            = default zeroBI (IndexerEntity.delegationPoolShares (indexerEntity ix))).
  { unfold delegationPoolShares.
    by destruct (IndexerEntity.delegationPoolShares (indexerEntity ix)). }
  rewrite Hshares.
  destruct (decide (delegatedStake ix = zeroBD)); by repeat split.
Qed.

(** X7.  [updateAllocatedStake] returns and persists the object's entity with
    only [allocatedStake] and [allocationRatio] replaced; it uses no
    snapshot: the object's snapshot, the ledger, the parameter update log and
    the entities of other ids are as before, and [lastSnapshot] is not
    set. *)
Theorem updateAllocatedStake_writes (d : BigDecimal) (ix : t) (w : World) :
  returns (updateAllocatedStake d) ix w
    (λ ix' w',
       let e := indexerEntity ix in
       let e' := indexerEntity ix' in
       indexers w' = <[id ix := e']> (indexers w) ∧
       parameterUpdates w' = parameterUpdates w ∧
       _snapshot ix' = _snapshot ix ∧ snapshots w' = snapshots w ∧
       sameObject ix ix' ∧
       e' = IndexerEntity.set_allocationRatio (IndexerEntity.allocationRatio e')
              (IndexerEntity.set_allocatedStake
                 (BD.plus (allocatedStake ix) d) e) ∧
       Some (IndexerEntity.allocationRatio e') = allocationRatio ix).
Proof.
  eexists _, _. split; [apply run_updateAllocatedStake_exact|]. cbn zeta.
  unfold sameObject. cbn. rewrite <-allocationRatio_default.
  by repeat split.
Qed.

(** *** Delegation parameters, rebates and rewards *)

(** X8.  [handleDelegationParametersUpdated] returns on every object, without
    looking at a cooldown in force: it persists the object's entity with only
    the two cut ratios (the converted event values) and the cooldown block
    replaced, stakes, derived fields and [lastSnapshot] included in what is
    kept, and it increments the parameter-change counter of the object's
    snapshot once. *)
Theorem handleDelegationParametersUpdated_writes
    (ev : DelegationParametersUpdated) (ix : t) (w : World) :
  returns (handleDelegationParametersUpdated ev) ix w
    (λ ix' w',
       let e := indexerEntity ix in
       let e' := indexerEntity ix' in
       let e1 :=
         IndexerEntity.set_queryFeeCutRatio
           (Some (feeCutToDecimalRatio (dpu_queryFeeCut ev)))
           (IndexerEntity.set_indexingRewardCutRatio
              (Some (feeCutToDecimalRatio (dpu_indexingRewardCut ev))) e) in
       let r :=
         snapshot_incrementParametersChangesCount
           (currentSnapshot (set_indexerEntity e1 ix) w).1
           (currentSnapshot (set_indexerEntity e1 ix) w).2 in
       indexers w' = <[id ix := e']> (indexers w) ∧
       _snapshot ix' = Some r.1 ∧ snapshots w' = r.2 ∧
       sameObject ix ix' ∧
       e' = IndexerEntity.set_delegatorParameterCooldownBlock
              (IndexerEntity.delegatorParameterCooldownBlock e') e1).
Proof.
  eexists _, _.
  split; [apply run_handleDelegationParametersUpdated_exact|]. cbn zeta.
  unfold sameObject. cbn. by repeat split.
Qed.

(** X9.  [handleRebateClaimed] returns: the persisted delegated stake is the
    cached one plus the delegation fees, the pool shares keep their value,
    and the ledger receives first the stake delta and then, after the entity
    has been saved, the pool reward, both on the object's snapshot. *)
Theorem handleRebateClaimed_writes (ev : RebateClaimed) (ix : t) (w : World) :
  returns (handleRebateClaimed ev) ix w
    (λ ix' w',
       let e := indexerEntity ix in
       let e' := indexerEntity ix' in
       let fees := tokenAmountToDecimal (rc_delegationFees ev) in
       let r := snapshot_updateDelegatedStake fees
                  (currentSnapshot ix w).1 (currentSnapshot ix w).2 in
       let r2 := snapshot_addDelegationPoolIndexingRewards fees r.1 r.2 in
       indexers w' = <[id ix := e']> (indexers w) ∧
       parameterUpdates w' = parameterUpdates w ∧
       _snapshot ix' = Some r2.1 ∧ snapshots w' = r2.2 ∧
       sameObject ix ix' ∧
       IndexerEntity.delegatedStake e' = BD.plus (delegatedStake ix) fees ∧
       IndexerEntity.delegationPoolShares e'
         = Some (default zeroBI (IndexerEntity.delegationPoolShares e)) ∧
       IndexerEntity.lastSnapshot e' = Some (snapshot_id r.1) ∧
       IndexerEntity.ownStake e' = IndexerEntity.ownStake e ∧
       IndexerEntity.allocatedStake e' = IndexerEntity.allocatedStake e ∧
       IndexerEntity.maximumDelegation e'
         = IndexerEntity.maximumDelegation e ∧
       sameParameters e e').
Proof.
  eexists _, _. split; [apply run_handleRebateClaimed_exact|]. cbn zeta.
  unfold sameObject, sameParameters. cbn.
  assert (Hshares : delegationPoolShares ix + zeroBI
            = default zeroBI (IndexerEntity.delegationPoolShares (indexerEntity ix))).
  { unfold delegationPoolShares, zeroBI.
    destruct (IndexerEntity.delegationPoolShares (indexerEntity ix)); cbn; lia. }
  rewrite Hshares. by repeat split.
Qed.

(** X10.  A rewards event on an object without delegated stake is not a
    no-op: the handler still records a zero pool reward and a zero stake
    delta in the object's snapshot and persists the entity, with
    [lastSnapshot] set and the derived fields recomputed, the delegated stake
    being the cached one. *)
Theorem handleRewardsAssigned_without_delegation
    (ev : RewardsAssigned) (ix : t) (w : World) :
  delegatedStake ix = zeroBD →
  returns (handleRewardsAssigned ev) ix w
    (λ ix' w',
       let e' := indexerEntity ix' in
       let ra := snapshot_addDelegationPoolIndexingRewards zeroBD
                   (currentSnapshot ix w).1 (currentSnapshot ix w).2 in
       let r := snapshot_updateDelegatedStake zeroBD ra.1 ra.2 in
       indexers w' = <[id ix := e']> (indexers w) ∧
       _snapshot ix' = Some r.1 ∧ snapshots w' = r.2 ∧
       IndexerEntity.lastSnapshot e' = Some (snapshot_id r.1) ∧
       IndexerEntity.delegatedStake e' = zeroBD ∧
       IndexerEntity.isOverDelegated e' = isOverDelegated ix ∧
       IndexerEntity.monthlyDelegatorRewardRate e' = zeroBD).
Proof.
  intros Hzero.
  assert (Hsplit : rewardsSplit ev (ix, w)
            = Some ((tokenAmountToDecimal (ra_amount ev), zeroBD), (ix, w))).
  { rewrite rewardsSplit_cases. cbn zeta.
    by rewrite (proj2 (equals_true _ _) Hzero). }
  eexists _, _.
  split; [by apply run_handleRewardsAssigned_exact|]. cbn zeta. cbn.
  rewrite Hzero, plus_zero_zero, (proj2 (equals_true zeroBD zeroBD) eq_refl).
  by repeat split.
Qed.

(** *** All handlers *)

Lemma faults_None ev ix w : faults ev ix → handle ev (ix, w) = None.
Proof.
  intros (Hrew & Hnz & Hcut). destruct ev; try discriminate Hrew.
  cbn [handle]. apply handleRewardsAssigned_fault.
  rewrite rewardsSplit_cases. cbn zeta.
  by rewrite (proj2 (equals_false _ _) Hnz), Hcut.
Qed.

Lemma rewardsSplit_returns ev ix w :
  ¬ faults (RewardsWereAssigned ev) ix →
  ∃ shares, rewardsSplit ev (ix, w) = Some (shares, (ix, w)).
Proof.
  intros Hok. rewrite rewardsSplit_cases. cbn zeta.
  destruct (BD.equals (delegatedStake ix) zeroBD) eqn:Hd; [by eexists|].
  destruct (IndexerEntity.indexingRewardCutRatio (indexerEntity ix)) eqn:Hcut;
    [by eexists|].
  destruct Hok. split; [done|]. split; [by apply equals_false|done].
Qed.

Lemma shares_default ix :
  delegationPoolShares ix
  = default zeroBI (IndexerEntity.delegationPoolShares (indexerEntity ix)).
Proof.
  unfold delegationPoolShares.
  by destruct (IndexerEntity.delegationPoolShares (indexerEntity ix)).
Qed.

(** The outcome of a handler that does not fault. *)
Lemma handle_outcome ev ix w :
  ¬ faults ev ix →
  ∃ ix' w',
    handle ev (ix, w) = Some (tt, (ix', w')) ∧
    sameObject ix ix' ∧
    indexers w' = (if isUntracked ev then indexers w
                   else <[id ix := indexerEntity ix']> (indexers w)) ∧
    (isUntracked ev = true → ix' = ix ∧ w' = w) ∧
    (isParameters ev = false →
     parameterUpdates w' = parameterUpdates w ∧
     sameParameters (indexerEntity ix) (indexerEntity ix')) ∧
    (inStep ix →
     IndexerEntity.ownStake (indexerEntity ix')
       = stepOf updatesOwnStake ownStakeDelta ev
           (IndexerEntity.ownStake (indexerEntity ix)) ∧
     IndexerEntity.allocatedStake (indexerEntity ix')
       = stepOf updatesAllocatedStake allocatedStakeDelta ev
           (IndexerEntity.allocatedStake (indexerEntity ix)) ∧
     default zeroBI (IndexerEntity.delegationPoolShares (indexerEntity ix'))
       = delegationPoolShares ix + poolSharesDelta ev ∧
     (isRewards ev = false →
      IndexerEntity.delegatedStake (indexerEntity ix')
        = stepOf updatesDelegatedStake delegatedStakeDelta ev
            (IndexerEntity.delegatedStake (indexerEntity ix)))).
Proof.
  intros Hok.
  assert (Hsplit : ∀ e, ev = RewardsWereAssigned e →
            ∃ shares, rewardsSplit e (ix, w) = Some (shares, (ix, w))).
  { intros e ->. by apply rewardsSplit_returns. }
  destruct ev as [e|e|e|e|e|e|e|e|e|e|e|e|e]; cbn [handle];
    try destruct (Hsplit e eq_refl) as [shares Hshares]; clear Hsplit;
    eexists _, _;
    (split;
     [first [ reflexivity
            | apply run_updateOwnStake_exact
            | apply run_updateDelegatedStake_exact
            | apply run_updateAllocatedStake_exact
            | apply run_handleRebateClaimed_exact
            | apply run_handleDelegationParametersUpdated_exact
            | apply run_handleRewardsAssigned_exact; exact Hshares ]|]);
    cbn zeta; unfold sameObject, sameParameters, inStep, stepOf;
    cbn [indexerEntity currentBlock _snapshot _delegatedStake _ownStake
         _allocatedStake indexers snapshots parameterUpdates fst snd
         isUntracked isParameters isRewards ownStakeDelta allocatedStakeDelta
         delegatedStakeDelta poolSharesDelta updatesOwnStake
         updatesDelegatedStake updatesAllocatedStake];
    (split; [cbn; repeat split; try done|]);
    (split; [done|]); (split; [done|]);
    (split; [try done; by (intros _; cbn)|]);
    intros (Hown & Hdel & Hall);
    unfold ownStake, delegatedStake, allocatedStake;
    cbn -[zeroBD BD.plus zeroBI default];
    rewrite ?shares_default, ?Hown, ?Hdel, ?Hall;
    (split; [done|]); (split; [done|]);
    (split; [cbn -[zeroBD BD.plus zeroBI]; unfold zeroBI; lia|done]).
Qed.

Lemma returns_mono (m : Method unit) ix w (P Q : t → World → Prop) :
  (∀ ix' w', P ix' w' → Q ix' w') → returns m ix w P → returns m ix w Q.
Proof. intros HPQ (ix' & w' & ? & ?). exists ix', w'. eauto. Qed.

(** X11.  Whatever the event, a handler that does not fault keeps the cached
    stakes, the block, the id and the creation time of the object's entity,
    and touches no entity of another id; the three handlers with an empty
    body change nothing at all, every other handler leaves the object's
    entity stored under its id. *)
Theorem handle_isolated (ev : Event) (ix : t) (w : World) :
  ¬ faults ev ix →
  returns (handle ev) ix w
    (λ ix' w',
       sameObject ix ix' ∧
       (∀ k, k ≠ id ix → indexers w' !! k = indexers w !! k) ∧
       (if isUntracked ev then ix' = ix ∧ w' = w
        else indexers w' !! id ix = Some (indexerEntity ix'))).
Proof.
  intros Hok.
  destruct (handle_outcome ev ix w Hok)
    as (ix' & w' & Hrun & Hsame & Hstore & Hnoop & _).
  exists ix', w'. split; [exact Hrun|]. split; [exact Hsame|].
  rewrite Hstore. destruct (isUntracked ev).
  - split; [done|]. by apply Hnoop.
  - split; [|apply lookup_insert_eq].
    intros k Hk. by rewrite lookup_insert_ne.
Qed.

(** X12.  A handler faults in exactly one situation: a rewards event on an
    object whose cached delegated stake is not zero while the entity has no
    indexing reward cut ratio.  All divisions are guarded. *)
Theorem handle_faults_iff (ev : Event) (ix : t) (w : World) :
  handle ev (ix, w) = None ↔ faults ev ix.
Proof.
  split; [|apply faults_None].
  intros Hnone.
  destruct (decide (isRewards ev = true)) as [Hrew|Hrew].
  - destruct (decide (delegatedStake ix = zeroBD)) as [Hd|Hd].
    + destruct (handle_outcome ev ix w) as (? & ? & Hrun & _); [|congruence].
      by intros (_ & ? & _).
    + destruct (IndexerEntity.indexingRewardCutRatio (indexerEntity ix))
        as [cut|] eqn:Hcut; [|done].
      destruct (handle_outcome ev ix w) as (? & ? & Hrun & _); [|congruence].
      intros (_ & _ & ?). congruence.
  - destruct (handle_outcome ev ix w) as (? & ? & Hrun & _); [|congruence].
    by intros (? & _).
Qed.

(** X13.  Only a delegation-parameters event changes the delegation
    parameters: after any other event the persisted cut ratios and cooldown
    block are those of the object's entity, and the parameter update log is
    as before. *)
Theorem handle_keeps_parameters (ev : Event) (ix : t) (w : World) :
  isParameters ev = false →
  ¬ faults ev ix →
  returns (handle ev) ix w
    (λ ix' w',
       sameParameters (indexerEntity ix) (indexerEntity ix') ∧
       parameterUpdates w' = parameterUpdates w).
Proof.
  intros Hpar Hok.
  destruct (handle_outcome ev ix w Hok)
    as (ix' & w' & Hrun & _ & _ & _ & Hparams & _).
  exists ix', w'. split; [exact Hrun|]. by destruct (Hparams Hpar).
Qed.

(** *** Sequences of events *)

Lemma constructor_inStep a b w : inStep (constructor a b w).
Proof. by unfold inStep, constructor. Qed.

Lemma constructor_persisted a b w :
  IndexerEntity.ownStake (indexerEntity (constructor a b w))
    = persistedOwnStake a w ∧
  IndexerEntity.delegatedStake (indexerEntity (constructor a b w))
    = persistedDelegatedStake a w ∧
  IndexerEntity.allocatedStake (indexerEntity (constructor a b w))
    = persistedAllocatedStake a w ∧
  delegationPoolShares (constructor a b w) = persistedPoolShares a w.
Proof.
  unfold constructor, delegationPoolShares, persistedOwnStake,
    persistedDelegatedStake, persistedAllocatedStake, persistedPoolShares.
  cbn [indexerEntity].
  destruct (indexers w !! toHex a) as [e|]; [|done].
  by destruct (IndexerEntity.delegationPoolShares e).
Qed.

Lemma applyEvent_outcome ev w :
  store_wf w →
  ¬ faults ev (constructor (event_indexer ev) (event_block ev) w) →
  ∃ w',
    applyEvent ev w = Some w' ∧
    store_wf w' ∧
    (∀ k e, indexers w !! k = Some e →
       ∃ e', indexers w' !! k = Some e' ∧
             IndexerEntity.createdAtTimestamp e'
               = IndexerEntity.createdAtTimestamp e) ∧
    (∀ a', a' ≠ event_indexer ev →
       indexers w' !! toHex a' = indexers w !! toHex a') ∧
    persistedOwnStake (event_indexer ev) w'
      = stepOf updatesOwnStake ownStakeDelta ev
          (persistedOwnStake (event_indexer ev) w) ∧
    persistedAllocatedStake (event_indexer ev) w'
      = stepOf updatesAllocatedStake allocatedStakeDelta ev
          (persistedAllocatedStake (event_indexer ev) w) ∧
    persistedPoolShares (event_indexer ev) w'
      = persistedPoolShares (event_indexer ev) w + poolSharesDelta ev ∧
    (isRewards ev = false →
     persistedDelegatedStake (event_indexer ev) w'
       = stepOf updatesDelegatedStake delegatedStakeDelta ev
           (persistedDelegatedStake (event_indexer ev) w)).
Proof.
  intros Hwf Hok.
  set (a := event_indexer ev) in *. set (b := event_block ev) in *.
  destruct (handle_outcome ev (constructor a b w) w Hok)
    as (ix' & w' & Hrun & Hsame & Hstore & Hnoop & _ & Hstakes).
  destruct (Hstakes (constructor_inStep a b w))
    as (Hown & Hall & Hshares & Hdel).
  destruct (constructor_persisted a b w) as (Pown & Pdel & Pall & Pshares).
  rewrite Pown in Hown. rewrite Pall in Hall. rewrite Pshares in Hshares.
  rewrite Pdel in Hdel.
  pose proof (constructor_id a b w Hwf) as Hid.
  destruct Hsame as (_ & _ & _ & _ & Hsameid & Hcreated).
  exists w'. unfold applyEvent, deliver. fold a b. rewrite Hrun.
  split; [done|].
  destruct (isUntracked ev) eqn:Hun.
  - destruct (Hnoop eq_refl) as [-> ->].
    split; [done|]. split; [by eauto|]. split; [done|].
    destruct (constructor_persisted a b w) as (Qown & Qdel & Qall & Qshares).
    rewrite <-Qown at 1. rewrite <-Qall at 1. rewrite <-Qshares at 1.
    split; [done|]. split; [done|].
    split; [by rewrite shares_default|].
    intros Hrew. rewrite <-Qdel at 1. by apply Hdel.
  - rewrite Hid in Hstore.
    assert (Hlook : indexers w' !! toHex a = Some (indexerEntity ix'))
      by (rewrite Hstore; apply lookup_insert_eq).
    split.
    { intros k e. rewrite Hstore.
      destruct (decide (toHex a = k)) as [<-|Hne].
      - rewrite lookup_insert_eq. intros [= <-]. by rewrite Hsameid.
      - rewrite lookup_insert_ne by done. apply Hwf. }
    split.
    { intros k e Hk. rewrite Hstore.
      destruct (decide (toHex a = k)) as [<-|Hne].
      - rewrite lookup_insert_eq. eexists. split; [done|].
        rewrite Hcreated. unfold constructor. cbn [indexerEntity].
        by rewrite Hk.
      - rewrite lookup_insert_ne by done. eauto. }
    split.
    { intros a' Hne. rewrite Hstore.
      by rewrite lookup_insert_ne by (unfold toHex; congruence). }
    unfold persistedOwnStake at 1, persistedAllocatedStake at 1,
      persistedPoolShares at 1, persistedDelegatedStake at 1.
    by rewrite Hlook.
Qed.

Lemma persisted_frame a w w' :
  indexers w' !! toHex a = indexers w !! toHex a →
  persistedOwnStake a w' = persistedOwnStake a w ∧
  persistedDelegatedStake a w' = persistedDelegatedStake a w ∧
  persistedAllocatedStake a w' = persistedAllocatedStake a w ∧
  persistedPoolShares a w' = persistedPoolShares a w.
Proof.
  intros Heq. unfold persistedOwnStake, persistedDelegatedStake,
    persistedAllocatedStake, persistedPoolShares. by rewrite Heq.
Qed.

Lemma rewards_free_ok ev ix : isRewards ev = false → ¬ faults ev ix.
Proof. intros Hrew (Habs & _). congruence. Qed.

(** X14.  A sequence of events without rewards events, each handled on an
    object constructed for it, never faults, and for every indexer the
    persisted own stake, delegated stake and allocated stake are their
    initial values (0 for an indexer without entity) to which the amounts of
    its events have been added one after the other by [BigDecimal.plus], in
    the order of the events: deposits, and locks and slashes negated;
    delegations and rebate fees, and delegation locks negated; allocations
    created, and allocations closed negated.  The pool shares are the
    initial shares (one for an indexer without entity) plus the shares
    minted minus the shares burned. *)
Theorem stakes_are_sums_of_deltas
    (a : Address) (evs : list Event) (w : World) :
  store_wf w →
  forallb (λ ev, negb (isRewards ev)) evs = true →
  ∃ w',
    applyEvents evs w = Some w' ∧
    persistedOwnStake a w'
      = foldOf updatesOwnStake ownStakeDelta a evs (persistedOwnStake a w) ∧
    persistedDelegatedStake a w'
      = foldOf updatesDelegatedStake delegatedStakeDelta a evs
          (persistedDelegatedStake a w) ∧
    persistedAllocatedStake a w'
      = foldOf updatesAllocatedStake allocatedStakeDelta a evs
          (persistedAllocatedStake a w) ∧
    persistedPoolShares a w'
      = persistedPoolShares a w + sumOfZ poolSharesDelta a evs.
Proof.
  revert w. induction evs as [|ev evs IH]; intros w Hwf Hfree.
  - exists w. cbn. unfold zeroBI. repeat split; [done..|lia].
  - cbn [forallb] in Hfree.
    apply andb_prop in Hfree as [Hrew%negb_true_iff Hfree].
    destruct (applyEvent_outcome ev w Hwf (rewards_free_ok _ _ Hrew))
      as (w1 & Hrun1 & Hwf1 & _ & Hother & Hown & Hall & Hshares & Hdel).
    specialize (Hdel Hrew).
    destruct (IH w1 Hwf1 Hfree) as (w' & Hrun & Sown & Sdel & Sall & Sshares).
    exists w'. cbn [applyEvents foldOf sumOfZ]. rewrite Hrun1.
    split; [exact Hrun|].
    rewrite Sown, Sdel, Sall, Sshares.
    destruct (decide (event_indexer ev = a)) as [<-|Hne].
    + rewrite Hown, Hdel, Hall, Hshares. repeat split; lia.
    + destruct (persisted_frame a w w1) as (-> & -> & -> & ->); [|done].
      apply Hother. congruence.
Qed.

(** X15.  However many events are handled, no indexer entity is removed and
    the creation time of an entity that already exists is never rewritten;
    the store stays keyed by entity id. *)
Theorem createdAtTimestamp_kept (evs : list Event) (w w' : World) :
  store_wf w →
  applyEvents evs w = Some w' →
  store_wf w' ∧
  ∀ k e, indexers w !! k = Some e →
    ∃ e', indexers w' !! k = Some e' ∧
          IndexerEntity.createdAtTimestamp e'
            = IndexerEntity.createdAtTimestamp e.
Proof.
  revert w. induction evs as [|ev evs IH]; intros w Hwf Hrun.
  - injection Hrun as <-. split; [done|]. eauto.
  - cbn [applyEvents] in Hrun.
    destruct (applyEvent ev w) as [w1|] eqn:Hrun1; [|done].
    destruct (applyEvent_outcome ev w Hwf)
      as (w1' & Hrun1' & Hwf1 & Hkept & _).
    { intros Hfault. unfold applyEvent, deliver in Hrun1.
      by rewrite (faults_None _ _ _ Hfault) in Hrun1. }
    assert (w1' = w1) as -> by congruence.
    destruct (IH w1 Hwf1 Hrun) as [Hwf' Hrest].
    split; [exact Hwf'|].
    intros k e Hk. destruct (Hkept k e Hk) as (e1 & Hk1 & Hc1).
    destruct (Hrest k e1 Hk1) as (e' & Hk' & Hc').
    exists e'. split; [exact Hk'|]. by rewrite Hc'.
Qed.

(** X16.  A first delegation to an indexer without entity, on an object
    constructed for it, creates the entity with the event block's timestamp
    as creation time, the delegated tokens as delegated stake, and one pool
    share more than the shares minted. *)
Theorem first_delegation (ev : SharesEvent) (w : World) :
  let ix := constructor (se_indexer ev) (se_block ev) w in
  indexers w !! toHex (se_indexer ev) = None →
  returns (handleStakeDelegated ev) ix w
    (λ ix' w',
       let e' := indexerEntity ix' in
       indexers w' !! toHex (se_indexer ev) = Some e' ∧
       IndexerEntity.id e' = toHex (se_indexer ev) ∧
       IndexerEntity.createdAtTimestamp e' = timestamp (se_block ev) ∧
       IndexerEntity.delegatedStake e' = tokenAmountToDecimal (se_tokens ev) ∧
       IndexerEntity.delegationPoolShares e' = Some (1 + se_shares ev)).
Proof.
  intros ix Hnew.
  destruct (constructor_fresh (se_indexer ev) (se_block ev) w Hnew)
    as (_ & Hdel & _ & Hshares & Hid & _).
  fold ix in Hdel, Hshares, Hid.
  eexists _, _. unfold handleStakeDelegated.
  split; [apply run_updateDelegatedStake_exact|]. cbn zeta.
  cbn [indexers indexerEntity]. rewrite Hid, Hdel, Hshares, plus_zero_l.
  unfold tokenAmountToDecimal. rewrite round_idem.
  split; [apply lookup_insert_eq|].
  unfold ix, constructor. rewrite Hnew. by cbn.
Qed.

End Handlers.

Section HandlerWitnesses.
Import Example MoreExamples.

Lemma store_wf_world400 : store_wf world400.
Proof.
  intros k e Hk. cbn in Hk.
  apply lookup_singleton_Some in Hk as [<- <-]. reflexivity.
Defined.

Lemma monthlyDelegatorRewardRate_guarded_witness :
  (delegatedStake (constructor "0xaa" block1 emptyWorld) = zeroBD ∧
   monthlyDelegatorRewardRate (constructor "0xaa" block1 emptyWorld, emptyWorld)
   = Some (zeroBD, (constructor "0xaa" block1 emptyWorld, emptyWorld))) ∧
  (delegatedStake (constructor "0xaa" block1 world400) ≠ zeroBD ∧
   ∃ sn ix1 w1,
     snapshot (constructor "0xaa" block1 world400, world400)
     = Some (sn, (ix1, w1)) ∧
     monthlyDelegatorRewardRate (constructor "0xaa" block1 world400, world400)
     = Some (BD.round (snapshot_previousMonthRewards sn (snapshots w1)
                       / delegatedStake (constructor "0xaa" block1 world400))%Qc,
             (ix1, w1))).
Proof.
  assert (Hnz : delegatedStake (constructor "0xaa" block1 world400) ≠ zeroBD)
    by (intros Heq; apply (f_equal this) in Heq; vm_compute in Heq;
        discriminate Heq).
  split; (split; [done|]).
  - exact (proj1 (monthlyDelegatorRewardRate_guarded
                    (constructor "0xaa" block1 emptyWorld) emptyWorld)
             eq_refl).
  - destruct (proj2 (monthlyDelegatorRewardRate_guarded
                      (constructor "0xaa" block1 world400) world400) Hnz)
      as (sn & ix1 & w1 & Hsn & _ & Hrate).
    by exists sn, ix1, w1.
Defined.

Lemma allocationRatio_over_delegated_witness :
  isOverDelegated (constructor "0xbb" block1 worldOver) = true ∧
  allocationRatio (constructor "0xbb" block1 worldOver)
  = Some (if decide (ownStake (constructor "0xbb" block1 worldOver) = zeroBD)
          then zeroBD
          else BD.round
                 (allocatedStake (constructor "0xbb" block1 worldOver)
                  / BD.plus (ownStake (constructor "0xbb" block1 worldOver))
                      (BD.times (ownStake (constructor "0xbb" block1 worldOver))
                                sixteenBD))%Qc).
Proof.
  assert (Hover : isOverDelegated (constructor "0xbb" block1 worldOver) = true)
    by (vm_compute; reflexivity).
  split; [exact Hover|].
  exact (proj2 (allocationRatio_over_delegated
                  (constructor "0xbb" block1 worldOver) Hover)).
Defined.

Lemma handleRewardsAssigned_without_delegation_witness :
  delegatedStake (constructor "0xaa" block1 emptyWorld) = zeroBD ∧
  returns (handleRewardsAssigned (rewards 50))
    (constructor "0xaa" block1 emptyWorld) emptyWorld
    (λ ix' w',
       IndexerEntity.delegatedStake (indexerEntity ix') = zeroBD ∧
       indexers w' !! "0xaa" = Some (indexerEntity ix')).
Proof.
  split; [reflexivity|].
  eapply returns_mono;
    [|exact (handleRewardsAssigned_without_delegation (rewards 50)
               (constructor "0xaa" block1 emptyWorld) emptyWorld eq_refl)].
  intros ix' w' (Hstore & _ & _ & _ & Hdel & _).
  split; [exact Hdel|]. rewrite Hstore. apply lookup_insert_eq.
Defined.

Lemma handle_isolated_witness :
  ¬ faults (StakeDeposited (tokens 100)) (constructor "0xaa" block1 world400) ∧
  returns (handle (StakeDeposited (tokens 100)))
    (constructor "0xaa" block1 world400) world400
    (λ ix' w', sameObject (constructor "0xaa" block1 world400) ix').
Proof.
  assert (Hok : ¬ faults (StakeDeposited (tokens 100))
                  (constructor "0xaa" block1 world400))
    by (intros (Hrew & _); discriminate Hrew).
  split; [exact Hok|].
  eapply returns_mono;
    [|exact (handle_isolated (StakeDeposited (tokens 100))
               (constructor "0xaa" block1 world400) world400 Hok)].
  by intros ix' w' (Hsame & _).
Defined.

Lemma handle_keeps_parameters_witness :
  isParameters (StakeDelegated (delegation 120 100)) = false ∧
  ¬ faults (StakeDelegated (delegation 120 100))
      (constructor "0xaa" block1 world400) ∧
  returns (handle (StakeDelegated (delegation 120 100)))
    (constructor "0xaa" block1 world400) world400
    (λ ix' w',
       sameParameters (indexerEntity (constructor "0xaa" block1 world400))
                      (indexerEntity ix') ∧
       parameterUpdates w' = parameterUpdates world400).
Proof.
  assert (Hok : ¬ faults (StakeDelegated (delegation 120 100))
                  (constructor "0xaa" block1 world400))
    by (intros (Hrew & _); discriminate Hrew).
  split; [reflexivity|]. split; [exact Hok|].
  exact (handle_keeps_parameters (StakeDelegated (delegation 120 100))
           (constructor "0xaa" block1 world400) world400 eq_refl Hok).
Defined.

Lemma stakes_are_sums_of_deltas_witness :
  store_wf world400 ∧
  forallb (λ ev, negb (isRewards ev)) history = true ∧
  ∃ w',
    applyEvents history world400 = Some w' ∧
    persistedOwnStake "0xaa" w'
      = foldOf updatesOwnStake ownStakeDelta "0xaa" history
          (persistedOwnStake "0xaa" world400) ∧
    persistedDelegatedStake "0xaa" w'
      = foldOf updatesDelegatedStake delegatedStakeDelta "0xaa" history
          (persistedDelegatedStake "0xaa" world400) ∧
    persistedAllocatedStake "0xaa" w'
      = foldOf updatesAllocatedStake allocatedStakeDelta "0xaa" history
          (persistedAllocatedStake "0xaa" world400) ∧
    persistedPoolShares "0xaa" w'
      = persistedPoolShares "0xaa" world400
        + sumOfZ poolSharesDelta "0xaa" history.
Proof.
  split; [exact store_wf_world400|]. split; [reflexivity|].
  exact (stakes_are_sums_of_deltas "0xaa" history world400
           store_wf_world400 eq_refl).
Defined.

Lemma createdAtTimestamp_kept_witness :
  store_wf world400 ∧
  applyEvents historyWithRewards world400 = Some afterHistoryWithRewards ∧
  store_wf afterHistoryWithRewards ∧
  ∀ k e, indexers world400 !! k = Some e →
    ∃ e', indexers afterHistoryWithRewards !! k = Some e' ∧
          IndexerEntity.createdAtTimestamp e'
            = IndexerEntity.createdAtTimestamp e.
Proof.
  assert (Hsome : from_option (λ _, true) false
                    (applyEvents historyWithRewards world400) = true)
    by (vm_compute; reflexivity).
  assert (Hrun : applyEvents historyWithRewards world400
                 = Some afterHistoryWithRewards).
  { unfold afterHistoryWithRewards.
    destruct (applyEvents historyWithRewards world400);
      [reflexivity|discriminate Hsome]. }
  split; [exact store_wf_world400|]. split; [exact Hrun|].
  exact (createdAtTimestamp_kept historyWithRewards world400
           afterHistoryWithRewards store_wf_world400 Hrun).
Defined.

Lemma first_delegation_witness :
  indexers emptyWorld !! toHex (se_indexer (delegation 120 100)) = None ∧
  returns (handleStakeDelegated (delegation 120 100))
    (constructor "0xaa" block1 emptyWorld) emptyWorld
    (λ ix' w',
       IndexerEntity.delegationPoolShares (indexerEntity ix') = Some 101).
Proof.
  split; [reflexivity|].
  eapply returns_mono;
    [|exact (first_delegation (delegation 120 100) emptyWorld eq_refl)].
  by intros ix' w' (_ & _ & _ & _ & Hshares).
Defined.

End HandlerWitnesses.
End IndexerHandlers.

(** ** Further properties of the delegated-stake identity *)

Module DelegatedStakeKeysFacts.
Import DelegatedStake DelegatedStakeKeys.

Lemma append_nil (s : string) : "" +:+ s = s.
Proof. reflexivity. Qed.

Lemma append_cons c (s s' : string) : String c s +:+ s' = String c (s +:+ s').
Proof. reflexivity. Qed.

Lemma key_injective (a a' b b' : string) :
  dashFree a = true → dashFree a' = true →
  a +:+ "-" +:+ b = a' +:+ "-" +:+ b' → a = a' ∧ b = b'.
Proof.
  revert a'. induction a as [|c a IH]; intros [|c' a'] Ha Ha' Heq;
    cbn in Ha, Ha'; rewrite ?append_cons, ?append_nil in Heq.
  - by injection Heq as ->.
  - injection Heq as <- _. by rewrite decide_True in Ha'.
  - injection Heq as -> _. by rewrite decide_True in Ha.
  - injection Heq as <- Heq.
    destruct (decide (c = _)); [done|].
    destruct (IH a' Ha Ha' Heq) as [-> ->]. done.
Qed.

(** X17.  Constructing a [DelegatedStake] only ever adds to the store: every
    record already stored is still there, unchanged; records under other ids
    are untouched; and the ids in the store afterwards are the old ones plus
    the id of the pair. *)
Theorem constructor_only_adds
    (ie : IndexerEntity.t) (de : DelegatorEntity) (b : Block)
    (store : gmap string DelegatedStakeEntity) :
  let r := constructor ie de b store in
  store ⊆ r.2 ∧
  (∀ k, k ≠ id_of ie de → r.2 !! k = store !! k) ∧
  dom r.2 = {[id_of ie de]} ∪ dom store.
Proof.
  intros r. unfold r, constructor, _initializeDelegatedStakeEntity.
  destruct (store !! id_of ie de) as [e|] eqn:He; cbn [fst snd entity_id].
  - split; [done|]. split; [done|].
    apply elem_of_dom_2 in He. symmetry. apply subseteq_union_1_L.
    by apply singleton_subseteq_l.
  - split; [by apply insert_subseteq|].
    split; [intros k Hk; by rewrite lookup_insert_ne|].
    by rewrite dom_insert_L.
Qed.

(** X18.  In a store keyed by record id, the record of a [DelegatedStake],
    created or loaded, has the id of the pair, and the store stays keyed by
    record id. *)
Theorem constructor_keeps_keys
    (ie : IndexerEntity.t) (de : DelegatorEntity) (b : Block)
    (store : gmap string DelegatedStakeEntity) :
  store_wf store →
  let r := constructor ie de b store in
  entity_id (delegatedStakeEntity r.1) = id r.1 ∧ store_wf r.2.
Proof.
  intros Hwf r. unfold r, constructor, _initializeDelegatedStakeEntity, id.
  destruct (store !! id_of ie de) as [e|] eqn:He;
    cbn [fst snd entity_id delegatedStakeEntity indexerEntity delegatorEntity].
  - split; [by apply Hwf|done].
  - split; [done|]. intros k e.
    destruct (decide (id_of ie de = k)) as [<-|Hne].
    + rewrite lookup_insert_eq. by intros [= <-].
    + rewrite lookup_insert_ne by done. apply Hwf.
Qed.

(** X19.  When the indexer ids contain no ["-"] (as hexadecimal addresses),
    two different (indexer, delegator) pairs have different record ids, and
    constructing the second pair's [DelegatedStake] after the first leaves
    the first pair's record as it is and gives the second pair the record
    stored under its own id before, or a new one of its own. *)
Theorem distinct_pairs_distinct_records
    (ie ie' : IndexerEntity.t) (de de' : DelegatorEntity) (b b' : Block)
    (store : gmap string DelegatedStakeEntity) :
  DelegatedStakeKeys.dashFree (IndexerEntity.id ie) = true →
  DelegatedStakeKeys.dashFree (IndexerEntity.id ie') = true →
  (IndexerEntity.id ie, delegator_id de)
    ≠ (IndexerEntity.id ie', delegator_id de') →
  let r := constructor ie de b store in
  let r' := constructor ie' de' b' r.2 in
  id r.1 ≠ id r'.1 ∧
  r'.2 !! id r.1 = Some (delegatedStakeEntity r.1) ∧
  match store !! id r'.1 with
  | Some e' => delegatedStakeEntity r'.1 = e'
  | None =>
      indexer (delegatedStakeEntity r'.1) = IndexerEntity.id ie' ∧
      delegator (delegatedStakeEntity r'.1) = delegator_id de' ∧
      isCreatedThisBlock r'.1 = true
  end.
Proof.
  intros Hdash Hdash' Hpairs r r'.
  assert (Hne : id_of ie de ≠ id_of ie' de').
  { intros Heq. apply Hpairs. unfold id_of in Heq.
    by destruct (key_injective _ _ _ _ Hdash Hdash' Heq) as [-> ->]. }
  assert (Hfirst : r.2 !! id_of ie de = Some (delegatedStakeEntity r.1)).
  { unfold r, constructor, _initializeDelegatedStakeEntity.
    destruct (store !! id_of ie de) as [e|] eqn:He; cbn; [done|].
    apply lookup_insert_eq. }
  assert (Hother : r.2 !! id_of ie' de' = store !! id_of ie' de').
  { unfold r, constructor, _initializeDelegatedStakeEntity.
    destruct (store !! id_of ie de) as [e|] eqn:He; cbn; [done|].
    by rewrite lookup_insert_ne. }
  split; [done|].
  unfold r', constructor, _initializeDelegatedStakeEntity, id,
    isCreatedThisBlock.
  cbn [fst snd delegatedStakeEntity indexerEntity delegatorEntity currentBlock].
  change (id_of (indexerEntity r.1) (delegatorEntity r.1)) with (id_of ie de).
  rewrite Hother.
  destruct (store !! id_of ie' de') as [e'|] eqn:He';
    cbn [fst snd delegatedStakeEntity indexerEntity delegatorEntity
         currentBlock entity_id indexer delegator createdAtTimestamp].
  - by split.
  - split; [by rewrite lookup_insert_ne|].
    by rewrite bool_decide_eq_true_2.
Qed.

(** X20.  Without that restriction the record id does not identify the pair:
    there are two different pairs with the same id, and, starting from an
    empty store, the [DelegatedStake] constructed for the second pair carries
    the record created for the first, whose [indexer] is not the second
    pair's indexer. *)
Theorem record_id_collision :
  ∃ (ie ie' : IndexerEntity.t) (de de' : DelegatorEntity),
    (IndexerEntity.id ie, delegator_id de)
      ≠ (IndexerEntity.id ie', delegator_id de') ∧
    id_of ie de = id_of ie' de' ∧
    ∀ (b b' : Block),
      let r := constructor ie de b ∅ in
      let r' := constructor ie' de' b' r.2 in
      delegatedStakeEntity r'.1 = delegatedStakeEntity r.1 ∧
      r'.2 = r.2 ∧
      indexer (delegatedStakeEntity r'.1) = IndexerEntity.id ie ∧
      indexer (delegatedStakeEntity r'.1) ≠ IndexerEntity.id ie'.
Proof.
  exists (MoreExamples.indexerNamed "a-b"), (MoreExamples.indexerNamed "a"),
         (MoreExamples.delegatorNamed "c"), (MoreExamples.delegatorNamed "b-c").
  split; [done|]. split; [done|].
  intros b b' r r'.
  assert (Hfirst : r.2 !! ("a-b-c" : string) = Some (delegatedStakeEntity r.1)).
  { unfold r, constructor, _initializeDelegatedStakeEntity.
    change (id_of _ _) with ("a-b-c" : string) in *.
    rewrite lookup_empty. cbn. apply lookup_insert_eq. }
  assert (Hsecond : delegatedStakeEntity r'.1 = delegatedStakeEntity r.1
                    ∧ r'.2 = r.2).
  { unfold r', constructor, _initializeDelegatedStakeEntity.
    change (id_of (MoreExamples.indexerNamed "a")
                  (MoreExamples.delegatorNamed "b-c"))
      with ("a-b-c" : string).
    by rewrite Hfirst. }
  destruct Hsecond as [Hentity Hstore].
  split; [exact Hentity|]. split; [exact Hstore|]. rewrite Hentity.
  unfold r, constructor, _initializeDelegatedStakeEntity.
  rewrite lookup_empty. by cbn.
Qed.

Section KeyWitnesses.
Import MoreExamples.

Lemma constructor_keeps_keys_witness :
  store_wf ∅ ∧
  entity_id (delegatedStakeEntity
               (constructor (indexerNamed "0xaa") (delegatorNamed "0xd1")
                  Example.block1 ∅).1)
  = id (constructor (indexerNamed "0xaa") (delegatorNamed "0xd1")
          Example.block1 ∅).1 ∧
  store_wf (constructor (indexerNamed "0xaa") (delegatorNamed "0xd1")
              Example.block1 ∅).2.
Proof.
  assert (Hwf : store_wf ∅).
  { intros k e Hk. by rewrite lookup_empty in Hk. }
  split; [exact Hwf|].
  exact (constructor_keeps_keys (indexerNamed "0xaa") (delegatorNamed "0xd1")
           Example.block1 ∅ Hwf).
Defined.

Lemma distinct_pairs_distinct_records_witness :
  DelegatedStakeKeys.dashFree (IndexerEntity.id (indexerNamed "0xaa")) = true ∧
  DelegatedStakeKeys.dashFree (IndexerEntity.id (indexerNamed "0xbb")) = true ∧
  (IndexerEntity.id (indexerNamed "0xaa"), delegator_id (delegatorNamed "0xd1"))
    ≠ (IndexerEntity.id (indexerNamed "0xbb"),
       delegator_id (delegatorNamed "0xd1")) ∧
  id (constructor (indexerNamed "0xaa") (delegatorNamed "0xd1")
        Example.block1 ∅).1
  ≠ id (constructor (indexerNamed "0xbb") (delegatorNamed "0xd1")
          Example.block1
          (constructor (indexerNamed "0xaa") (delegatorNamed "0xd1")
             Example.block1 ∅).2).1.
Proof.
  assert (Hne : (IndexerEntity.id (indexerNamed "0xaa"),
                 delegator_id (delegatorNamed "0xd1"))
                ≠ (IndexerEntity.id (indexerNamed "0xbb"),
                   delegator_id (delegatorNamed "0xd1")))
    by (intros Heq; discriminate Heq).
  split; [reflexivity|]. split; [reflexivity|]. split; [exact Hne|].
  exact (proj1 (distinct_pairs_distinct_records
                  (indexerNamed "0xaa") (indexerNamed "0xbb")
                  (delegatorNamed "0xd1") (delegatorNamed "0xd1")
                  Example.block1 Example.block1 ∅ eq_refl eq_refl Hne)).
Defined.

End KeyWitnesses.
End DelegatedStakeKeysFacts.
